(** * Bit-banged 74HC595 output and the 4-bit character LCD driver

    A shallow embedding of the two TM4C123GH6PM programs that drive a
    74HC595 shift register:

    - [004_LCD/main.c]: 16x2 character LCD in 4-bit mode
      (PF2 = SDATA, PF3 = SCLK, PE5 = STK);
    - the 7-segment program (PF2 = SDATA, PF3 = SHCP, PC4 = STCP).

    C objects are modelled as [Z] with the conversions of the C abstract
    machine written out: a store into an [unsigned char] object reduces
    modulo 2^8, a store into a 32-bit register reduces modulo 2^32.
    Memory-mapped registers are modelled as memory cells: a load returns
    the value of the last store.  Every store, every entry into
    [shift_out1] and every call of [delayMs] is recorded, in program
    order, in the list of events a computation returns. *)

From Stdlib Require Import ZArith List Lia Bool String Ascii.
Import ListNotations.
Local Open Scope Z_scope.

(** ** Integer conversions *)

Definition to_uchar (z : Z) : Z := z mod 256.
Definition to_uint32 (z : Z) : Z := z mod 4294967296.

(** ** Machine state *)

Inductive port := PORTC | PORTE | PORTF.
Inductive gpio_reg := DIR_R | DEN_R | DATA_R.

(** Locations the two programs store to: the LCD program's global [PP2],
    the run-mode clock gating register and the GPIO registers. *)
Inductive loc :=
| PP2
| SYSCTL_RCGCGPIO_R
| GPIO (p : port) (r : gpio_reg).

Abbreviation GPIO_PORTC_DIR_R := (GPIO PORTC DIR_R).
Abbreviation GPIO_PORTC_DEN_R := (GPIO PORTC DEN_R).
Abbreviation GPIO_PORTC_DATA_R := (GPIO PORTC DATA_R).
Abbreviation GPIO_PORTE_DIR_R := (GPIO PORTE DIR_R).
Abbreviation GPIO_PORTE_DEN_R := (GPIO PORTE DEN_R).
Abbreviation GPIO_PORTE_DATA_R := (GPIO PORTE DATA_R).
Abbreviation GPIO_PORTF_DIR_R := (GPIO PORTF DIR_R).
Abbreviation GPIO_PORTF_DEN_R := (GPIO PORTF DEN_R).
Abbreviation GPIO_PORTF_DATA_R := (GPIO PORTF DATA_R).

Record gpio := mkGpio { dir : Z; den : Z; data : Z }.

Record machine := mkMachine {
  pp2 : Z;
  rcgcgpio : Z;
  portc : gpio;
  porte : gpio;
  portf : gpio
}.

Definition gpio_get (r : gpio_reg) (g : gpio) : Z :=
  match r with
  | DIR_R => dir g
  | DEN_R => den g
  | DATA_R => data g
  end.

Definition gpio_set (r : gpio_reg) (v : Z) (g : gpio) : gpio :=
  match r with
  | DIR_R => mkGpio v (den g) (data g)
  | DEN_R => mkGpio (dir g) v (data g)
  | DATA_R => mkGpio (dir g) (den g) v
  end.

Definition port_get (p : port) (m : machine) : gpio :=
  match p with
  | PORTC => portc m
  | PORTE => porte m
  | PORTF => portf m
  end.

Definition port_set (p : port) (g : gpio) (m : machine) : machine :=
  match p with
  | PORTC => mkMachine (pp2 m) (rcgcgpio m) g (porte m) (portf m)
  | PORTE => mkMachine (pp2 m) (rcgcgpio m) (portc m) g (portf m)
  | PORTF => mkMachine (pp2 m) (rcgcgpio m) (portc m) (porte m) g
  end.

Definition read (l : loc) (m : machine) : Z :=
  match l with
  | PP2 => pp2 m
  | SYSCTL_RCGCGPIO_R => rcgcgpio m
  | GPIO p r => gpio_get r (port_get p m)
  end.

Definition write (l : loc) (v : Z) (m : machine) : machine :=
  match l with
  | PP2 => mkMachine v (rcgcgpio m) (portc m) (porte m) (portf m)
  | SYSCTL_RCGCGPIO_R => mkMachine (pp2 m) v (portc m) (porte m) (portf m)
  | GPIO p r => port_set p (gpio_set r v (port_get p m)) m
  end.

(** Conversion to the type of the object stored into. *)
Definition wrap (l : loc) (v : Z) : Z :=
  match l with
  | PP2 => to_uchar v
  | _ => to_uint32 v
  end.

(** State of both programs at reset, with [PP2] as its initialiser
    [unsigned char PP2 = 0x00] leaves it. *)
Definition power_on : machine :=
  mkMachine 0x00 0 (mkGpio 0 0 0) (mkGpio 0 0 0) (mkGpio 0 0 0).

(** ** Events and the monad of computations *)

Inductive event :=
| Store (l : loc) (v : Z)
| Call_shift_out1 (byte : Z)
| Call_delayMs (n : Z).

Definition M (A : Type) : Type := machine -> A * machine * list event.

Definition ret {A} (a : A) : M A := fun m => (a, m, []).

Definition bind {A B} (c : M A) (k : A -> M B) : M B :=
  fun m =>
    let '(a, m1, t1) := c m in
    let '(b, m2, t2) := k a m1 in
    (b, m2, t1 ++ t2).

Notation "x <- c ;; k" := (bind c (fun x => k))
  (at level 61, c at next level, right associativity).
Notation "c ;; k" := (bind c (fun _ => k))
  (at level 61, right associativity).

Definition load (l : loc) : M Z := fun m => (read l m, m, []).

Definition store (l : loc) (v : Z) : M unit :=
  fun m => (tt, write l (wrap l v) m, [Store l (wrap l v)]).

Definition emit (e : event) : M unit := fun m => (tt, m, [e]).

(** [l |= v] and [l &= v]: one load and one store. *)
Definition or_assign (l : loc) (v : Z) : M unit :=
  x <- load l ;; store l (Z.lor x v).

Definition and_assign (l : loc) (v : Z) : M unit :=
  x <- load l ;; store l (Z.land x v).

(** [for (j = j0; ...; j++) body], for a loop whose number of iterations
    [n] is fixed by its constant bounds; [j] is an [unsigned char]. *)
Fixpoint for_loop (n : nat) (j : Z) (body : Z -> M unit) : M unit :=
  match n with
  | O => ret tt
  | S n' => body j ;; for_loop n' (to_uchar (j + 1)) body
  end.

Definition final {A} (c : M A) (m : machine) : machine := snd (fst (c m)).
Definition events {A} (c : M A) (m : machine) : list event := snd (c m).

(** The busy-wait loops of [delayMs] touch locals only. *)
Definition delayMs (n : Z) : M unit := emit (Call_delayMs n).

(** ** The LCD program, [004_LCD/main.c] *)

Module LCD.

(** The bit remapping expression of [LCD_command] and [LCD_putc], as
    assigned to the [unsigned char num]. *)
Definition remap (num : Z) : Z :=
  to_uchar
    (Z.lor (Z.lor (Z.lor (Z.shiftl (Z.land num 0x11) 3)
                         (Z.shiftl (Z.land num 0x22) 1))
                  (Z.shiftr (Z.land num 0x44) 1))
           (Z.shiftr (Z.land num 0x88) 3)).

(** Body of the [for] loop of [shift_out1]. *)
Definition shift_bit (byte j : Z) : M unit :=
  store GPIO_PORTF_DATA_R 0x00 ;;
  let bit := to_uchar (Z.land byte (Z.shiftl 1 j)) in
  (if negb (bit =? 0)
   then or_assign GPIO_PORTF_DATA_R 0x04
   else or_assign GPIO_PORTF_DATA_R 0x00) ;;
  or_assign GPIO_PORTF_DATA_R 0x08.

Definition shift_out1 (byte : Z) : M unit :=
  emit (Call_shift_out1 byte) ;;
  store GPIO_PORTE_DATA_R 0x00 ;;
  for_loop 8 0 (shift_bit byte) ;;
  store GPIO_PORTE_DATA_R 0x20.

(** RS = 0, RW = 0 for command mode (as the source documents it). *)
Definition LCD_command (command : Z) : M unit :=
  let num := command in
  let num := remap num in
  let command := num in
  (* send high nibble *)
  p <- load PP2 ;;
  store PP2 (Z.lor (Z.land p 0xF0) (Z.land (Z.shiftr command 4) 0x0F)) ;;
  and_assign PP2 (Z.lnot (Z.shiftl 3 7)) ;;
  or_assign PP2 0x20 ;;
  p <- load PP2 ;; shift_out1 p ;;
  and_assign PP2 (Z.lnot 0x20) ;;
  p <- load PP2 ;; shift_out1 p ;;
  (* send low nibble *)
  p <- load PP2 ;;
  store PP2 (Z.lor (Z.land p 0xF0) (Z.land command 0x0F)) ;;
  and_assign PP2 (Z.lnot (Z.shiftl 3 7)) ;;
  or_assign PP2 0x20 ;;
  p <- load PP2 ;; shift_out1 p ;;
  and_assign PP2 (Z.lnot 0x20) ;;
  p <- load PP2 ;; shift_out1 p.

(** RS = 1 indicates data; RW = 0 for write. *)
Definition LCD_putc (ascii : Z) : M unit :=
  let num := ascii in
  let num := remap num in
  let ascii := num in
  (* send high nibble *)
  p <- load PP2 ;;
  store PP2 (Z.lor (Z.land p 0xF0) (Z.land (Z.shiftr ascii 4) 0x0F)) ;;
  or_assign PP2 0xA0 ;;
  and_assign PP2 (Z.lnot 0x40) ;;
  p <- load PP2 ;; shift_out1 p ;;
  and_assign PP2 (Z.lnot 0x20) ;;
  p <- load PP2 ;; shift_out1 p ;;
  (* send low nibble *)
  p <- load PP2 ;;
  store PP2 (Z.lor (Z.land p 0xF0) (Z.land ascii 0x0F)) ;;
  or_assign PP2 0xA0 ;;
  and_assign PP2 (Z.lnot 0x40) ;;
  p <- load PP2 ;; shift_out1 p ;;
  and_assign PP2 (Z.lnot 0x20) ;;
  p <- load PP2 ;; shift_out1 p.

Definition char_code (c : ascii) : Z := Z.of_N (N_of_ascii c).

(** [while ( *lcd_string) LCD_putc( *lcd_string++)]: the string is the
    memory from the pointer up to, and without, its terminating NUL. *)
Fixpoint LCD_puts (lcd_string : string) : M unit :=
  match lcd_string with
  | EmptyString => ret tt
  | String c rest =>
      if char_code c =? 0 then ret tt
      else LCD_putc (char_code c) ;; LCD_puts rest
  end.

Definition LCD_clear : M unit := LCD_command 0x01.
Definition LCD_origin : M unit := LCD_command 0x02.
Definition LCD_row1 : M unit := LCD_command 0x80.
Definition LCD_row2 : M unit := LCD_command 0xC0.

Definition LCD_init : M unit :=
  delayMs 20 ;;
  LCD_command 0x30 ;;
  delayMs 5 ;;
  LCD_command 0x30 ;;
  delayMs 5 ;;
  LCD_command 0x30 ;;
  delayMs 5 ;;
  LCD_command 0x20 ;;
  delayMs 5 ;;
  LCD_command 0x28 ;;
  delayMs 5 ;;
  LCD_command 0x0C ;;
  delayMs 5 ;;
  LCD_command 0x06 ;;
  delayMs 5 ;;
  LCD_command 0x01 ;;
  delayMs 5.

(** [main] up to its final [while (1);], which stores nothing. *)
Definition main : M unit :=
  or_assign SYSCTL_RCGCGPIO_R 0x30 ;;
  or_assign GPIO_PORTE_DIR_R 0x20 ;;
  or_assign GPIO_PORTE_DEN_R 0x20 ;;
  or_assign GPIO_PORTF_DIR_R 0x0C ;;
  or_assign GPIO_PORTF_DEN_R 0x0C ;;
  LCD_init ;;
  LCD_row1 ;;
  LCD_puts "Welcome" ;;
  LCD_row2 ;;
  LCD_puts "LCD 16x2" ;;
  delayMs 500.

End LCD.

(** ** The 7-segment program *)

Module SevenSeg.

Definition a : list Z := [0x60; 0xDA; 0xF2; 0x66; 0xFF].

Definition T : Z := 500.

(** Body of the [for] loop of [shift_out1]. *)
Definition shift_bit (data_byte j : Z) : M unit :=
  store GPIO_PORTF_DATA_R 0x00 ;;
  let bit_state := to_uchar (Z.land data_byte (Z.shiftl 1 j)) in
  (if negb (bit_state =? 0)
   then or_assign GPIO_PORTF_DATA_R 0x04
   else or_assign GPIO_PORTF_DATA_R 0x00) ;;
  or_assign GPIO_PORTF_DATA_R 0x08.

Definition shift_out1 (data_byte : Z) : M unit :=
  emit (Call_shift_out1 data_byte) ;;
  store GPIO_PORTC_DATA_R 0x00 ;;
  for_loop 8 0 (shift_bit data_byte) ;;
  store GPIO_PORTC_DATA_R 0x10.

(** The five transfers that show digits 4, 3, 2, 1 and 8. *)
Definition show_digits : M unit :=
  shift_out1 (nth 3 a 0) ;;
  shift_out1 (nth 2 a 0) ;;
  shift_out1 (nth 1 a 0) ;;
  shift_out1 (nth 0 a 0) ;;
  shift_out1 (nth 4 a 0).

(** The five transfers that turn all segments off. *)
Definition clear_digits : M unit :=
  shift_out1 0 ;;
  shift_out1 0 ;;
  shift_out1 0 ;;
  shift_out1 0 ;;
  shift_out1 0.

(** One turn of the [while (1)] loop of [main]. *)
Definition loop_body : M unit :=
  show_digits ;;
  delayMs T ;;
  clear_digits ;;
  delayMs T.

Fixpoint loop (turns : nat) : M unit :=
  match turns with
  | O => ret tt
  | S n => loop_body ;; loop n
  end.

(** [main] through the first [turns] turns of its endless loop. *)
Definition main (turns : nat) : M unit :=
  or_assign SYSCTL_RCGCGPIO_R 0x24 ;;
  or_assign GPIO_PORTC_DIR_R 0x10 ;;
  or_assign GPIO_PORTF_DIR_R 0x0C ;;
  or_assign GPIO_PORTC_DEN_R 0x10 ;;
  or_assign GPIO_PORTF_DEN_R 0x0C ;;
  loop turns.

End SevenSeg.

(** ** The analog keypad program

    [key_scan] of the program that reads a resistor-ladder hex keypad
    through ADC0: a pure computation on the raw conversion result. *)

Module Keypad.

Definition chr (c : ascii) : Z := Z.of_N (N_of_ascii c).

(** [rec_val] is an [unsigned int]; the result is the [unsigned char]
    code of the key. *)
Definition key_scan (rec_val : Z) : Z :=
  let rec_val := to_uint32 (Z.shiftr rec_val 4) in
  if (rec_val =? 0xB7) || (rec_val =? 0xB6) then chr "0"
  else if (rec_val =? 0xB3) || (rec_val =? 0xB2) then chr "1"
  else if (rec_val =? 0xAE) || (rec_val =? 0xAD) then chr "2"
  else if (rec_val =? 0xAA) || (rec_val =? 0xA9) then chr "3"
  else if (rec_val =? 0xA6) || (rec_val =? 0xA7) then chr "4"
  else if (rec_val =? 0xA0) || (rec_val =? 0x9F) then chr "5"
  else if (rec_val =? 0x98) || (rec_val =? 0x97) then chr "6"
  else if (rec_val =? 0x92) || (rec_val =? 0x91) then chr "7"
  else if (rec_val =? 0x8C) || (rec_val =? 0x8B) then chr "8"
  else if (rec_val =? 0x81) || (rec_val =? 0x80) then chr "9"
  else if (rec_val =? 0x73) || (rec_val =? 0x72) then chr "A"
  else if (rec_val =? 0x66) || (rec_val =? 0x65) then chr "B"
  else if rec_val =? 0x5A then chr "C"
  else if rec_val =? 0x41 then chr "D"
  else if rec_val =? 0x20 then chr "E"
  else if rec_val =? 0x00 then chr "F"
  else chr "G".

End Keypad.

(** ** The LM35/LDR program *)

Module Sensor.

(** [lightIntensity = (result * 10) / 3030] on the [int result]; C
    division truncates toward zero. *)
Definition lightIntensity (result : Z) : Z := Z.quot (result * 10) 3030.

End Sensor.

(** ** Shape of one transfer *)

Definition SDATA : Z := 0x04.
Definition SCLK : Z := 0x08.

Fixpoint zrange (j : Z) (n : nat) : list Z :=
  match n with
  | O => []
  | S n' => j :: zrange (j + 1) n'
  end.

(** Bits 0 to 7 of a byte, least significant first. *)
Definition byte_bits (b : Z) : list bool := map (Z.testbit b) (zrange 0 8).

Definition sdata_of (d : bool) : Z := if d then SDATA else 0.

(** One clock cycle presenting [d] on SDATA: clock low (and data cleared),
    data set, clock high with data held. *)
Definition cycle (d : bool) : list event :=
  [Store GPIO_PORTF_DATA_R 0;
   Store GPIO_PORTF_DATA_R (sdata_of d);
   Store GPIO_PORTF_DATA_R (Z.lor (sdata_of d) SCLK)].

(** A whole transfer with the latch line bit [mask] of port [latch]. *)
Definition shift_trace (latch : port) (mask b : Z) : list event :=
  Call_shift_out1 b
  :: Store (GPIO latch DATA_R) 0
  :: flat_map cycle (byte_bits b) ++ [Store (GPIO latch DATA_R) mask].

Definition shift_final (latch : port) (mask b : Z) (m : machine) : machine :=
  write GPIO_PORTF_DATA_R (Z.lor (sdata_of (Z.testbit b 7)) SCLK)
        (write (GPIO latch DATA_R) mask m).

(** ** Observations on a list of events *)

(** Arguments of the calls of [shift_out1], in order. *)
Fixpoint shifted_bytes (t : list event) : list Z :=
  match t with
  | [] => []
  | Call_shift_out1 b :: t' => b :: shifted_bytes t'
  | _ :: t' => shifted_bytes t'
  end.

(** Values stored into [PP2], in order. *)
Fixpoint pp2_stores (t : list event) : list Z :=
  match t with
  | [] => []
  | Store PP2 v :: t' => v :: pp2_stores t'
  | _ :: t' => pp2_stores t'
  end.

Definition port_eqb (p q : port) : bool :=
  match p, q with
  | PORTC, PORTC | PORTE, PORTE | PORTF, PORTF => true
  | _, _ => false
  end.

(** Values stored into the data register of port [p], in order. *)
Fixpoint port_stores (p : port) (t : list event) : list Z :=
  match t with
  | [] => []
  | Store (GPIO q DATA_R) v :: t' =>
      if port_eqb p q then v :: port_stores p t' else port_stores p t'
  | _ :: t' => port_stores p t'
  end.

(** The calls a program makes, without the stores. *)
Inductive call := Shift (b : Z) | Wait (n : Z).

Fixpoint calls (t : list event) : list call :=
  match t with
  | [] => []
  | Call_shift_out1 b :: t' => Shift b :: calls t'
  | Call_delayMs n :: t' => Wait n :: calls t'
  | Store _ _ :: t' => calls t'
  end.

(** Level of the line(s) [mask] when the data register holds [v]. *)
Definition level (mask v : Z) : bool := negb (Z.land v mask =? 0).

(** Control bits of the byte presented to the display. *)
Definition RS (b : Z) : bool := Z.testbit b 7.
Definition RW (b : Z) : bool := Z.testbit b 6.
Definition EN (b : Z) : bool := Z.testbit b 5.
Definition nibble (b : Z) : Z := Z.land b 0x0F.

(** *** The shift register's view of the three lines

    What a 74HC595 wired to SDATA and SCLK of port F and to the latch
    line [mask] of port [latch] sees: at a rising edge of the clock it
    takes the level of the data line, at a rising edge of the latch it
    copies the bits taken so far to its outputs. *)

Inductive edge :=
| ClockRise (latch_high : bool) (bit : bool)
| LatchRise (clocked : nat).

Record lines := mkLines {
  clock_high : bool;
  latch_high : bool;
  clocked : nat   (* rising clock edges since the last latch *)
}.

Definition watch (latch : port) (mask : Z) (e : event) (s : lines)
  : lines * list edge :=
  match e with
  | Store (GPIO PORTF DATA_R) v =>
      let c := level SCLK v in
      if negb (clock_high s) && c
      then (mkLines c (latch_high s) (S (clocked s)),
            [ClockRise (latch_high s) (level SDATA v)])
      else (mkLines c (latch_high s) (clocked s), [])
  | Store (GPIO q DATA_R) v =>
      if port_eqb latch q then
        let l := level mask v in
        if negb (latch_high s) && l
        then (mkLines (clock_high s) l O, [LatchRise (clocked s)])
        else (mkLines (clock_high s) l (clocked s), [])
      else (s, [])
  | _ => (s, [])
  end.

Fixpoint watch_all (latch : port) (mask : Z) (t : list event) (s : lines)
  : lines * list edge :=
  match t with
  | [] => (s, [])
  | e :: t' =>
      let '(s1, o1) := watch latch mask e s in
      let '(s2, o2) := watch_all latch mask t' s1 in
      (s2, o1 ++ o2)
  end.

Definition edges (latch : port) (mask : Z) (t : list event) (s : lines)
  : list edge := snd (watch_all latch mask t s).

(** *** Shape of one command or data byte

    The successive values of [PP2] while one nibble is sent, as
    [LCD_command] and [LCD_putc] compute them from the value [p] found
    in [PP2] and the nibble [nib]. *)

Record steps := mkSteps {
  loaded : Z;    (* nibble loaded into the low four bits *)
  moded : Z;     (* after the first mode/strobe assignment *)
  strobed : Z;   (* shifted out first *)
  released : Z   (* EN cleared, shifted out second *)
}.

Definition command_steps (p nib : Z) : steps :=
  let p1 := to_uchar (Z.lor (Z.land p 0xF0) nib) in
  let p2 := to_uchar (Z.land p1 (Z.lnot (Z.shiftl 3 7))) in
  let p3 := to_uchar (Z.lor p2 0x20) in
  let p4 := to_uchar (Z.land p3 (Z.lnot 0x20)) in
  mkSteps p1 p2 p3 p4.

Definition data_steps (p nib : Z) : steps :=
  let p1 := to_uchar (Z.lor (Z.land p 0xF0) nib) in
  let p2 := to_uchar (Z.lor p1 0xA0) in
  let p3 := to_uchar (Z.land p2 (Z.lnot 0x40)) in
  let p4 := to_uchar (Z.land p3 (Z.lnot 0x20)) in
  mkSteps p1 p2 p3 p4.

Definition nibble_trace (s : steps) : list event :=
  Store PP2 (loaded s)
  :: Store PP2 (moded s)
  :: Store PP2 (strobed s)
  :: shift_trace PORTE 0x20 (strobed s)
  ++ Store PP2 (released s)
  :: shift_trace PORTE 0x20 (released s).

Definition high_nibble (b : Z) : Z := Z.land (Z.shiftr b 4) 0x0F.
Definition low_nibble (b : Z) : Z := Z.land b 0x0F.

(** Order of the four bits of a nibble reversed. *)
Definition reverse4 (n : Z) : Z :=
  Z.lor (Z.lor (Z.lor (Z.shiftl (Z.land n 1) 3) (Z.shiftl (Z.land n 2) 1))
               (Z.shiftr (Z.land n 4) 1))
        (Z.shiftr (Z.land n 8) 3).

(** Steps of the two nibbles of a byte, [mode] being [command_steps] or
    [data_steps]. *)
Definition first_steps (mode : Z -> Z -> steps) (p c : Z) : steps :=
  mode p (high_nibble (LCD.remap c)).

Definition second_steps (mode : Z -> Z -> steps) (p c : Z) : steps :=
  mode (released (first_steps mode p c)) (low_nibble (LCD.remap c)).

Definition byte_trace (mode : Z -> Z -> steps) (p c : Z) : list event :=
  nibble_trace (first_steps mode p c) ++ nibble_trace (second_steps mode p c).

Definition byte_final (mode : Z -> Z -> steps) (c : Z) (m : machine)
  : machine :=
  let p := released (second_steps mode (pp2 m) c) in
  shift_final PORTE 0x20 p (write PP2 p m).

(** The four bytes shifted out for one command or data byte. *)
Definition byte_shifts (mode : Z -> Z -> steps) (p c : Z) : list Z :=
  [strobed (first_steps mode p c); released (first_steps mode p c);
   strobed (second_steps mode p c); released (second_steps mode p c)].

(** The four bytes [LCD_command] shifts out for command [c] when bits 6
    and 4 of [PP2] are [h]: the high nibble of the remapped command with
    EN set, then cleared, and the same for its low nibble. *)
Definition command_bytes (h c : Z) : list Z :=
  let hi := high_nibble (LCD.remap c) in
  let lo := low_nibble (LCD.remap c) in
  [Z.lor (Z.lor h hi) 0x20; Z.lor h hi; Z.lor (Z.lor h lo) 0x20; Z.lor h lo].

(** The same for [LCD_putc], [h] being bit 4 of [PP2]. *)
Definition data_bytes (h c : Z) : list Z :=
  let hi := high_nibble (LCD.remap c) in
  let lo := low_nibble (LCD.remap c) in
  [Z.lor (Z.lor h hi) 0xA0; Z.lor (Z.lor h hi) 0x80;
   Z.lor (Z.lor h lo) 0xA0; Z.lor (Z.lor h lo) 0x80].

(** The bytes shifted out between one delay and the next. *)
Fixpoint sends (cs : list call) : list (list Z) :=
  match cs with
  | [] => [[]]
  | Wait _ :: cs' => [] :: sends cs'
  | Shift b :: cs' =>
      match sends cs' with
      | [] => [[b]]
      | g :: gs => (b :: g) :: gs
      end
  end.

(** A nibble sent on its own: one byte with EN set, then the same nibble
    with EN cleared. *)
Definition is_nibble_send (g : list Z) : bool :=
  match g with
  | [b1; b2] => EN b1 && negb (EN b2) && (nibble b1 =? nibble b2)
  | _ => false
  end.

(** The two bytes of one nibble: the nibble in the low four bits of both,
    EN set in the first and cleared, with nothing else changed, in the
    second. *)
Definition nibble_pair (nib b1 b2 : Z) : Prop :=
  nibble b1 = nib /\ nibble b2 = nib
  /\ EN b1 = true /\ EN b2 = false
  /\ b2 = b1 - 0x20.

(** The successive values of [PP2], from its value [p0] at the start. *)
Definition pp2_history (p0 : Z) (t : list event) : list Z :=
  p0 :: pp2_stores t.

(** What a transfer stores into port F. *)
Definition cycle_values (d : bool) : list Z :=
  [0; sdata_of d; Z.lor (sdata_of d) SCLK].

(** A state in which RW is set in [PP2]. *)
Definition rw_set : machine :=
  mkMachine 0x40 0 (mkGpio 0 0 0) (mkGpio 0 0 0) (mkGpio 0 0 0).

(** The commands of [LCD_init], in order. *)
Definition init_commands : list Z :=
  [0x30; 0x30; 0x30; 0x20; 0x28; 0x0C; 0x06; 0x01].

(** The reading by which [shift] never stores into the data register of the
    latch port. *)
Definition no_implicit_latch (shift : Z -> M unit) (latch : port) : Prop :=
  forall b m, 0 <= b < 256 -> port_stores latch (events (shift b) m) = [].

(** The reading by which the three sends that follow the power-on delay in the
    events [t] are each one nibble on its own. *)
Definition raw_nibble_sends (t : list event) : Prop :=
  forall i, (1 <= i <= 3)%nat ->
  is_nibble_send (nth i (sends (calls t)) []) = true.

(** *** Properties of whole programs *)

Definition result {A} (c : M A) (m : machine) : A := fst (fst (c m)).

(** From a state in [Inv], [c] emits events in [T] and ends in [Inv]. *)
Definition preserves {A} (Inv : machine -> Prop) (T : list event -> Prop)
  (c : M A) : Prop :=
  forall m, Inv m -> T (events c m) /\ Inv (final c m).

Definition any_state (m : machine) : Prop := True.

(** An event that is neither a store into a GPIO data register nor the
    entry into [shift_out1]. *)
Definition quiet (e : event) : Prop :=
  match e with
  | Store (GPIO _ DATA_R) _ => False
  | Call_shift_out1 _ => False
  | _ => True
  end.

(** Events in which the data registers are stored into by whole
    transfers only. *)
Inductive framed (latch : port) (mask : Z) : list event -> Prop :=
| framed_nil : framed latch mask []
| framed_quiet e t :
    quiet e -> framed latch mask t -> framed latch mask (e :: t)
| framed_shift b t :
    framed latch mask t -> framed latch mask (shift_trace latch mask b ++ t).

(** At a rising clock edge the latch is low; a rising latch edge follows
    exactly eight rising clock edges. *)
Definition edge_ok (e : edge) : Prop :=
  match e with
  | ClockRise l _ => l = false
  | LatchRise n => n = 8%nat
  end.

Fixpoint latch_rises (o : list edge) : nat :=
  match o with
  | [] => O
  | LatchRise _ :: o' => S (latch_rises o')
  | ClockRise _ _ :: o' => latch_rises o'
  end.

(** Bits sampled at the rising clock edges, in order. *)
Fixpoint clocked_bits (o : list edge) : list bool :=
  match o with
  | [] => []
  | ClockRise _ d :: o' => d :: clocked_bits o'
  | LatchRise _ :: o' => clocked_bits o'
  end.

(** RW is [v] in a value stored into [PP2] or passed to [shift_out1]. *)
Definition rw_is (v : bool) (e : event) : Prop :=
  match e with
  | Store PP2 x => RW x = v
  | Call_shift_out1 b => RW b = v
  | _ => True
  end.

(** RW is 0 in every value stored into [PP2] or passed to [shift_out1]. *)
Definition rw_clear (t : list event) : Prop := Forall (rw_is false) t.

Definition rw_state (m : machine) : Prop := RW (pp2 m) = false.

(** The latch lines the two programs use. *)
Definition is_latch (latch : port) (mask : Z) : Prop :=
  (latch = PORTE /\ mask = 0x20) \/ (latch = PORTC /\ mask = 0x10).

(** ** Further observations *)

(** Codes of the characters of a string before its first NUL. *)
Fixpoint sent_chars (s : string) : list Z :=
  match s with
  | EmptyString => []
  | String c rest =>
      if LCD.char_code c =? 0 then []
      else LCD.char_code c :: sent_chars rest
  end.

Fixpoint has_nul (s : string) : bool :=
  match s with
  | EmptyString => false
  | String c rest => (LCD.char_code c =? 0) || has_nul rest
  end.

(** Events replayed on a machine: every store takes effect in order.
    At each store of [v] into a data register, every bit set in [v]
    must belong to a pin that is, at that time, an output with its
    digital function enabled. *)
Fixpoint only_outputs_driven (m : machine) (t : list event) : Prop :=
  match t with
  | [] => True
  | Store (GPIO p DATA_R) v :: t' =>
      Z.land v (Z.lnot (Z.land (read (GPIO p DIR_R) m)
                               (read (GPIO p DEN_R) m))) = 0
      /\ only_outputs_driven (write (GPIO p DATA_R) v m) t'
  | Store l v :: t' => only_outputs_driven (write l v m) t'
  | _ :: t' => only_outputs_driven m t'
  end.

(** Pins of port [p] that the program with latch line [mask] of port
    [latch] drives. *)
Definition driven_pins (latch : port) (mask : Z) (p : port) : Z :=
  if port_eqb p PORTF then Z.lor SDATA SCLK
  else if port_eqb p latch then mask
  else 0.

(** An event that leaves the configuration alone and stores into a data
    register nothing beyond the driven pins. *)
Definition within_pins (latch : port) (mask : Z) (e : event) : Prop :=
  match e with
  | Store (GPIO p DATA_R) v =>
      Z.land v (Z.lnot (driven_pins latch mask p)) = 0
  | Store (GPIO _ _) _ => False
  | _ => True
  end.

(** The driven pins of every port are configured in [m]. *)
Definition configured (latch : port) (mask : Z) (m : machine) : Prop :=
  forall p,
    Z.land (driven_pins latch mask p)
           (Z.lnot (Z.land (read (GPIO p DIR_R) m) (read (GPIO p DEN_R) m)))
    = 0.

(** The calls of one turn of the 7-segment loop. *)
Definition turn_calls : list call :=
  [Shift 0x66; Shift 0xF2; Shift 0xDA; Shift 0x60; Shift 0xFF; Wait 500;
   Shift 0; Shift 0; Shift 0; Shift 0; Shift 0; Wait 500].

(** ** Facts *)

Lemma to_uchar_small z : 0 <= z < 256 -> to_uchar z = z.
Proof. intros H. unfold to_uchar. apply Z.mod_small. exact H. Qed.

Lemma bit_test b j :
  0 <= j < 8 ->
  negb (to_uchar (Z.land b (Z.shiftl 1 j)) =? 0) = Z.testbit b j.
Proof.
  intros Hj.
  assert (Hcases : j = 0 \/ j = 1 \/ j = 2 \/ j = 3 \/
                   j = 4 \/ j = 5 \/ j = 6 \/ j = 7) by lia.
  rewrite Z.shiftl_1_l.
  assert (Hland : Z.land b (2 ^ j) = if Z.testbit b j then 2 ^ j else 0).
  { apply Z.bits_inj'. intros n Hn. rewrite Z.land_spec.
    destruct (Z.eq_dec n j) as [->|Hne].
    - rewrite Z.pow2_bits_true by lia. rewrite andb_true_r.
      destruct (Z.testbit b j); [now rewrite Z.pow2_bits_true by lia|].
      now rewrite Z.bits_0.
    - rewrite Z.pow2_bits_false by lia. rewrite andb_false_r.
      destruct (Z.testbit b j); [now rewrite Z.pow2_bits_false by lia|].
      now rewrite Z.bits_0. }
  rewrite Hland.
  destruct (Z.testbit b j);
    [| reflexivity].
  repeat (destruct Hcases as [->|Hcases]; [reflexivity|]).
  subst j. reflexivity.
Qed.

Lemma LCD_shift_bit_run b j m :
  0 <= j < 8 ->
  LCD.shift_bit b j m =
  (tt,
   write GPIO_PORTF_DATA_R (Z.lor (sdata_of (Z.testbit b j)) SCLK) m,
   cycle (Z.testbit b j)).
Proof.
  intros Hj. unfold LCD.shift_bit. rewrite (bit_test b j Hj).
  destruct (Z.testbit b j); reflexivity.
Qed.

Lemma write_write l v w m : write l w (write l v m) = write l w m.
Proof. destruct l as [| |[] []]; reflexivity. Qed.

Lemma for_loop_S n j body m :
  for_loop (S n) j body m =
  let '(_, m1, t1) := body j m in
  let '(b, m2, t2) := for_loop n (to_uchar (j + 1)) body m1 in
  (b, m2, t1 ++ t2).
Proof. reflexivity. Qed.

Section Clocking.

Variable body : Z -> Z -> M unit.

Hypothesis body_run : forall b j m,
  0 <= j < 8 ->
  body b j m =
  (tt,
   write GPIO_PORTF_DATA_R (Z.lor (sdata_of (Z.testbit b j)) SCLK) m,
   cycle (Z.testbit b j)).

Lemma for_loop_clocking b n : forall j m,
  0 <= j -> j + Z.of_nat n < 8 ->
  for_loop (S n) j (body b) m =
  (tt,
   write GPIO_PORTF_DATA_R
         (Z.lor (sdata_of (Z.testbit b (j + Z.of_nat n))) SCLK) m,
   flat_map cycle (map (Z.testbit b) (zrange j (S n)))).
Proof.
  induction n as [|n IH]; intros j m Hj Hn; rewrite for_loop_S.
  - rewrite body_run by lia. cbn [for_loop ret zrange map flat_map].
    rewrite Z.add_0_r, !app_nil_r. reflexivity.
  - rewrite body_run by lia. rewrite to_uchar_small by lia.
    rewrite IH by lia. rewrite write_write.
    replace (j + 1 + Z.of_nat n) with (j + Z.of_nat (S n)) by lia.
    reflexivity.
Qed.

End Clocking.

Lemma LCD_shift_out1_run b m :
  LCD.shift_out1 b m =
  (tt, shift_final PORTE 0x20 b m, shift_trace PORTE 0x20 b).
Proof.
  unfold LCD.shift_out1, shift_final, shift_trace, byte_bits.
  cbv beta iota delta [bind emit store].
  rewrite (for_loop_clocking LCD.shift_bit LCD_shift_bit_run b 7) by lia.
  destruct m as [p r c e f]; destruct e, f. reflexivity.
Qed.

Lemma SevenSeg_shift_bit_run b j m :
  0 <= j < 8 ->
  SevenSeg.shift_bit b j m =
  (tt,
   write GPIO_PORTF_DATA_R (Z.lor (sdata_of (Z.testbit b j)) SCLK) m,
   cycle (Z.testbit b j)).
Proof.
  intros Hj. unfold SevenSeg.shift_bit. rewrite (bit_test b j Hj).
  destruct (Z.testbit b j); reflexivity.
Qed.

Lemma SevenSeg_shift_out1_run b m :
  SevenSeg.shift_out1 b m =
  (tt, shift_final PORTC 0x10 b m, shift_trace PORTC 0x10 b).
Proof.
  unfold SevenSeg.shift_out1, shift_final, shift_trace, byte_bits.
  cbv beta iota delta [bind emit store].
  rewrite (for_loop_clocking SevenSeg.shift_bit SevenSeg_shift_bit_run b 7)
    by lia.
  destruct m as [p r c e f]; destruct c, f. reflexivity.
Qed.

(** *** What the shift register sees of one transfer *)

Lemma watch_all_app latch mask t1 t2 s :
  watch_all latch mask (t1 ++ t2) s =
  let '(s1, o1) := watch_all latch mask t1 s in
  let '(s2, o2) := watch_all latch mask t2 s1 in
  (s2, o1 ++ o2).
Proof.
  revert s. induction t1 as [|e t1 IH]; intros s; cbn [app watch_all].
  - destruct (watch_all latch mask t2 s). reflexivity.
  - destruct (watch latch mask e s) as [s1 o1]. rewrite IH.
    destruct (watch_all latch mask t1 s1) as [s2 o2].
    destruct (watch_all latch mask t2 s2) as [s3 o3].
    now rewrite app_assoc.
Qed.

Lemma watch_cycle latch mask d s :
  watch_all latch mask (cycle d) s =
  (mkLines true (latch_high s) (S (clocked s)),
   [ClockRise (latch_high s) d]).
Proof.
  destruct s as [c l n]. destruct d, c; reflexivity.
Qed.

Lemma watch_clocking latch mask bits : forall s,
  watch_all latch mask (flat_map cycle bits) s =
  match bits with
  | [] => (s, [])
  | _ :: _ =>
      (mkLines true (latch_high s) (List.length bits + clocked s),
       map (ClockRise (latch_high s)) bits)
  end.
Proof.
  induction bits as [|d bits IH]; intros s; [reflexivity|].
  cbn [flat_map]. rewrite watch_all_app, watch_cycle, IH.
  destruct bits as [|d' bits]; cbn [latch_high clocked List.length map app].
  - reflexivity.
  - now rewrite Nat.add_succ_r.
Qed.

Lemma watch_shift_trace latch mask b s :
  is_latch latch mask ->
  watch_all latch mask (shift_trace latch mask b) s =
  (mkLines true true 0,
   map (ClockRise false) (byte_bits b) ++ [LatchRise (8 + clocked s)]).
Proof.
  intros Hl. destruct s as [c l n].
  assert (Hpre : forall t,
    watch_all latch mask
      (Call_shift_out1 b :: Store (GPIO latch DATA_R) 0 :: t)
      (mkLines c l n) =
    watch_all latch mask t (mkLines c false n)).
  { intros t. destruct Hl as [[-> ->]|[-> ->]]; cbn [watch_all watch port_eqb];
      change (level _ 0) with false; rewrite andb_false_r;
      cbn [clock_high latch_high clocked app];
      now destruct (watch_all _ _ t _). }
  unfold shift_trace. rewrite Hpre, watch_all_app, watch_clocking.
  unfold byte_bits. cbn [zrange map List.length latch_high clocked].
  destruct Hl as [[-> ->]|[-> ->]]; reflexivity.
Qed.

(** *** One command, one character *)

Ltac run_steps :=
  cbv beta iota zeta delta
    [bind load store or_assign and_assign ret emit wrap read write
     port_get port_set gpio_get gpio_set shift_final
     pp2 rcgcgpio portc porte portf dir den data fst snd].

Lemma LCD_command_run c m :
  LCD.LCD_command c m =
  (tt, byte_final command_steps c m, byte_trace command_steps (pp2 m) c).
Proof.
  unfold LCD.LCD_command. run_steps.
  repeat (rewrite LCD_shift_out1_run; run_steps).
  unfold byte_final, byte_trace, nibble_trace, first_steps, second_steps,
    command_steps, high_nibble, low_nibble.
  run_steps. cbn [loaded moded strobed released app].
  rewrite <- !app_assoc. reflexivity.
Qed.

Lemma LCD_putc_run c m :
  LCD.LCD_putc c m =
  (tt, byte_final data_steps c m, byte_trace data_steps (pp2 m) c).
Proof.
  unfold LCD.LCD_putc. run_steps.
  repeat (rewrite LCD_shift_out1_run; run_steps).
  unfold byte_final, byte_trace, nibble_trace, first_steps, second_steps,
    data_steps, high_nibble, low_nibble.
  run_steps. cbn [loaded moded strobed released app].
  rewrite <- !app_assoc. reflexivity.
Qed.

(** *** Checking a property on every byte *)

Lemma in_zrange n : forall j x,
  j <= x < j + Z.of_nat n -> In x (zrange j n).
Proof.
  induction n as [|n IH]; intros j x Hx; [lia|].
  cbn [zrange]. destruct (Z.eq_dec j x) as [->|Hne]; [now left|].
  right. apply IH. lia.
Qed.

Lemma forall_range (P : Z -> bool) j n :
  forallb P (zrange j n) = true ->
  forall x, j <= x < j + Z.of_nat n -> P x = true.
Proof.
  intros H x Hx. rewrite forallb_forall in H. apply H, in_zrange, Hx.
Qed.

Lemma forall_byte_nibble (P : Z -> Z -> bool) :
  forallb (fun p => forallb (P p) (zrange 0 16)) (zrange 0 256) = true ->
  forall p nib, 0 <= p < 256 -> 0 <= nib < 16 -> P p nib = true.
Proof.
  intros H p nib Hp Hn.
  apply (forall_range (P p) 0 16); [|lia].
  apply (forall_range (fun p => forallb (P p) (zrange 0 16)) 0 256 H). lia.
Qed.

Lemma to_uchar_range z : 0 <= to_uchar z < 256.
Proof. unfold to_uchar. apply Z.mod_pos_bound. lia. Qed.

Lemma to_uchar_land z k :
  Z.land k 0xFF = k -> Z.land z k = Z.land (to_uchar z) k.
Proof.
  intros Hk. unfold to_uchar. change 256 with (2 ^ 8).
  rewrite <- Z.land_ones by lia. rewrite <- Z.land_assoc.
  rewrite (Z.land_comm (Z.ones 8) k). change (Z.ones 8) with 0xFF.
  now rewrite Hk.
Qed.

Lemma to_uchar_testbit z i :
  0 <= i < 8 -> Z.testbit (to_uchar z) i = Z.testbit z i.
Proof.
  intros Hi. unfold to_uchar. change 256 with (2 ^ 8).
  apply Z.mod_pow2_bits_low. lia.
Qed.

Lemma low_nibble_range b : 0 <= low_nibble b < 16.
Proof.
  unfold low_nibble. change 0x0F with (Z.ones 4).
  rewrite Z.land_ones by lia. apply Z.mod_pos_bound. lia.
Qed.

Lemma high_nibble_range b : 0 <= high_nibble b < 16.
Proof. exact (low_nibble_range (Z.shiftr b 4)). Qed.

Lemma command_steps_byte p nib :
  command_steps p nib = command_steps (to_uchar p) nib.
Proof.
  unfold command_steps. now rewrite (to_uchar_land p 0xF0).
Qed.

Lemma data_steps_byte p nib :
  data_steps p nib = data_steps (to_uchar p) nib.
Proof.
  unfold data_steps. now rewrite (to_uchar_land p 0xF0).
Qed.

Ltac split_checks H :=
  repeat match type of H with
         | (_ && _)%bool = true =>
             let H1 := fresh "H" in
             apply andb_prop in H; destruct H as [H H1];
             first [apply Z.eqb_eq in H1 | apply Bool.eqb_prop in H1]
         end;
  first [apply Z.eqb_eq in H | apply Bool.eqb_prop in H].

(** What [LCD_command] puts on the register for one nibble. *)
Lemma command_steps_bits p nib :
  0 <= nib < 16 ->
  let s := command_steps p nib in
  (strobed s = Z.lor (Z.lor (Z.land p 0x50) nib) 0x20
   /\ released s = Z.lor (Z.land p 0x50) nib
   /\ released s = strobed s - 0x20)
  /\ (nibble (strobed s) = nib /\ nibble (released s) = nib)
  /\ (EN (strobed s) = true /\ EN (released s) = false)
  /\ (RS (strobed s) = false /\ RS (released s) = false)
  /\ (RW (loaded s) = RW p /\ RW (moded s) = RW p
      /\ RW (strobed s) = RW p /\ RW (released s) = RW p).
Proof.
  intros Hn. rewrite command_steps_byte.
  unfold RW at 2 4 6 8. rewrite <- (to_uchar_testbit p 6) by lia.
  rewrite (to_uchar_land p 0x50) by reflexivity.
  generalize (to_uchar_range p). generalize (to_uchar p). clear p.
  intros p Hp. cbv zeta.
  pose (check := fun p nib =>
    let s := command_steps p nib in
    ((strobed s =? Z.lor (Z.lor (Z.land p 0x50) nib) 0x20)
     && (released s =? Z.lor (Z.land p 0x50) nib)
     && (released s =? strobed s - 0x20)
     && (nibble (strobed s) =? nib)
     && (nibble (released s) =? nib)
     && Bool.eqb (EN (strobed s)) true
     && Bool.eqb (EN (released s)) false
     && Bool.eqb (RS (strobed s)) false
     && Bool.eqb (RS (released s)) false
     && Bool.eqb (RW (loaded s)) (Z.testbit p 6)
     && Bool.eqb (RW (moded s)) (Z.testbit p 6)
     && Bool.eqb (RW (strobed s)) (Z.testbit p 6)
     && Bool.eqb (RW (released s)) (Z.testbit p 6))%bool).
  assert (H : check p nib = true).
  { apply forall_byte_nibble; [vm_compute; reflexivity | lia | lia]. }
  unfold check in H. cbv zeta in H. split_checks H.
  repeat split; assumption.
Qed.

(** What [LCD_putc] puts on the register for one nibble. *)
Lemma data_steps_bits p nib :
  0 <= nib < 16 ->
  let s := data_steps p nib in
  (strobed s = Z.lor (Z.lor (Z.land p 0x10) nib) 0xA0
   /\ released s = Z.lor (Z.lor (Z.land p 0x10) nib) 0x80
   /\ released s = strobed s - 0x20)
  /\ (nibble (strobed s) = nib /\ nibble (released s) = nib)
  /\ (EN (strobed s) = true /\ EN (released s) = false)
  /\ (RS (strobed s) = true /\ RS (released s) = true)
  /\ (RW (loaded s) = RW p /\ RW (moded s) = RW p
      /\ RW (strobed s) = false /\ RW (released s) = false).
Proof.
  intros Hn. rewrite data_steps_byte.
  unfold RW at 2 4. rewrite <- (to_uchar_testbit p 6) by lia.
  rewrite (to_uchar_land p 0x10) by reflexivity.
  generalize (to_uchar_range p). generalize (to_uchar p). clear p.
  intros p Hp. cbv zeta.
  pose (check := fun p nib =>
    let s := data_steps p nib in
    ((strobed s =? Z.lor (Z.lor (Z.land p 0x10) nib) 0xA0)
     && (released s =? Z.lor (Z.lor (Z.land p 0x10) nib) 0x80)
     && (released s =? strobed s - 0x20)
     && (nibble (strobed s) =? nib)
     && (nibble (released s) =? nib)
     && Bool.eqb (EN (strobed s)) true
     && Bool.eqb (EN (released s)) false
     && Bool.eqb (RS (strobed s)) true
     && Bool.eqb (RS (released s)) true
     && Bool.eqb (RW (loaded s)) (Z.testbit p 6)
     && Bool.eqb (RW (moded s)) (Z.testbit p 6)
     && Bool.eqb (RW (strobed s)) false
     && Bool.eqb (RW (released s)) false)%bool).
  assert (H : check p nib = true).
  { apply forall_byte_nibble; [vm_compute; reflexivity | lia | lia]. }
  unfold check in H. cbv zeta in H. split_checks H.
  repeat split; assumption.
Qed.

(** *** The bit remapping *)

Lemma remap_range b : 0 <= LCD.remap b < 256.
Proof. apply to_uchar_range. Qed.

Lemma remap_byte b : LCD.remap b = LCD.remap (to_uchar b).
Proof.
  unfold LCD.remap.
  now rewrite (to_uchar_land b 0x11), (to_uchar_land b 0x22),
    (to_uchar_land b 0x44), (to_uchar_land b 0x88).
Qed.

Lemma remap_nibbles b :
  0 <= b < 256 ->
  high_nibble (LCD.remap b) = reverse4 (high_nibble b)
  /\ low_nibble (LCD.remap b) = reverse4 (low_nibble b).
Proof.
  intros Hb.
  pose (check := fun b =>
    ((high_nibble (LCD.remap b) =? reverse4 (high_nibble b))
     && (low_nibble (LCD.remap b) =? reverse4 (low_nibble b)))%bool).
  assert (H : check b = true).
  { apply (forall_range check 0 256); [vm_compute; reflexivity | lia]. }
  unfold check in H. split_checks H. split; assumption.
Qed.

Lemma remap_remap b : 0 <= b < 256 -> LCD.remap (LCD.remap b) = b.
Proof.
  intros Hb. apply Z.eqb_eq.
  apply (forall_range (fun b => LCD.remap (LCD.remap b) =? b) 0 256);
    [vm_compute; reflexivity | lia].
Qed.

(** *** Sequencing *)

Lemma events_bind {A B} (c : M A) (k : A -> M B) m :
  events (bind c k) m = events c m ++ events (k (result c m)) (final c m).
Proof.
  unfold events, final, result, bind.
  destruct (c m) as [[a m1] t1]. cbn [fst snd].
  destruct (k a m1) as [[b m2] t2]. reflexivity.
Qed.

Lemma final_bind {A B} (c : M A) (k : A -> M B) m :
  final (bind c k) m = final (k (result c m)) (final c m).
Proof.
  unfold events, final, result, bind.
  destruct (c m) as [[a m1] t1]. cbn [fst snd].
  destruct (k a m1) as [[b m2] t2]. reflexivity.
Qed.

Section Preserves.

Variable Inv : machine -> Prop.
Variable T : list event -> Prop.
Hypothesis T_nil : T [].
Hypothesis T_app : forall t1 t2, T t1 -> T t2 -> T (t1 ++ t2).

Lemma preserves_ret {A} (a : A) : preserves Inv T (ret a).
Proof. intros m Hm. split; [exact T_nil | exact Hm]. Qed.

Lemma preserves_bind {A B} (c : M A) (k : A -> M B) :
  preserves Inv T c -> (forall a, preserves Inv T (k a)) ->
  preserves Inv T (bind c k).
Proof.
  intros Hc Hk m Hm. rewrite events_bind, final_bind.
  destruct (Hc m Hm) as [Ht Hi].
  destruct (Hk (result c m) (final c m) Hi) as [Ht' Hi'].
  split; [apply T_app; assumption | exact Hi'].
Qed.

End Preserves.

(** *** Whole transfers seen by the shift register *)

Lemma framed_app latch mask t1 t2 :
  framed latch mask t1 -> framed latch mask t2 -> framed latch mask (t1 ++ t2).
Proof.
  intros H1 H2. induction H1 as [|e t Hq _ IH|b t _ IH]; cbn [app].
  - exact H2.
  - apply framed_quiet; assumption.
  - rewrite <- app_assoc. apply framed_shift, IH.
Qed.

Lemma framed_shift_trace latch mask b :
  framed latch mask (shift_trace latch mask b).
Proof.
  rewrite <- (app_nil_r (shift_trace latch mask b)).
  apply framed_shift, framed_nil.
Qed.

Lemma watch_quiet latch mask e s :
  quiet e -> watch latch mask e s = (s, []).
Proof.
  destruct e as [[| |q []] v| |]; cbn [quiet]; intros H;
    try reflexivity; try contradiction; destruct q; reflexivity.
Qed.

Lemma latch_rises_app o1 o2 :
  latch_rises (o1 ++ o2) = (latch_rises o1 + latch_rises o2)%nat.
Proof.
  induction o1 as [|[l d|n] o1 IH]; cbn [app latch_rises]; lia.
Qed.

Lemma latch_rises_clock l bits :
  latch_rises (map (ClockRise l) bits) = O.
Proof. induction bits as [|d bits IH]; [reflexivity | exact IH]. Qed.

Lemma shifted_bytes_app t1 t2 :
  shifted_bytes (t1 ++ t2) = shifted_bytes t1 ++ shifted_bytes t2.
Proof.
  induction t1 as [|[l v|b|n] t1 IH]; cbn [app shifted_bytes];
    [reflexivity | | rewrite IH | ]; auto.
Qed.

Lemma shifted_bytes_cycles bits : shifted_bytes (flat_map cycle bits) = [].
Proof. induction bits as [|d bits IH]; [reflexivity | exact IH]. Qed.

Lemma shifted_bytes_shift_trace latch mask b :
  shifted_bytes (shift_trace latch mask b) = [b].
Proof.
  unfold shift_trace. cbn [shifted_bytes].
  now rewrite shifted_bytes_app, shifted_bytes_cycles.
Qed.

(** Whatever was on the lines before, provided no clock edge is pending:
    every latch edge of a framed list of events follows exactly eight
    clock edges, all with the latch low, and there is one latch edge for
    each call of [shift_out1]. *)
Lemma framed_watch latch mask t :
  is_latch latch mask -> framed latch mask t ->
  forall s, clocked s = O ->
  clocked (fst (watch_all latch mask t s)) = O
  /\ Forall edge_ok (edges latch mask t s)
  /\ latch_rises (edges latch mask t s) = List.length (shifted_bytes t).
Proof.
  intros Hl Hf. unfold edges.
  induction Hf as [|e t Hq _ IH|b t _ IH]; intros s Hs.
  - cbn. auto.
  - cbn [watch_all]. rewrite (watch_quiet latch mask e s Hq).
    specialize (IH s Hs). destruct (watch_all latch mask t s) as [s2 o2].
    cbn [fst snd app] in *. destruct e as [l v| |]; cbn [shifted_bytes].
    + exact IH.
    + destruct Hq.
    + exact IH.
  - rewrite watch_all_app, (watch_shift_trace latch mask b s Hl), Hs.
    specialize (IH (mkLines true true 0) eq_refl).
    destruct (watch_all latch mask t (mkLines true true 0)) as [s2 o2].
    cbn [fst snd] in *. destruct IH as (IH1 & IH2 & IH3).
    rewrite shifted_bytes_app, shifted_bytes_shift_trace.
    repeat split.
    + exact IH1.
    + rewrite Forall_app; split; [|exact IH2].
      rewrite Forall_app; split.
      * apply Forall_map, Forall_forall. intros d _. reflexivity.
      * repeat constructor.
    + rewrite !latch_rises_app, latch_rises_clock, IH3. reflexivity.
Qed.

(** *** The programs store into the data registers by whole transfers *)

Section Framing.

Variables (latch : port) (mask : Z).

Let framing {A} (c : M A) : Prop := preserves any_state (framed latch mask) c.

Lemma framing_bind {A B} (c : M A) (k : A -> M B) :
  framing c -> (forall a, framing (k a)) -> framing (bind c k).
Proof.
  apply preserves_bind. intros t1 t2. apply framed_app.
Qed.

Lemma framing_ret {A} (a : A) : framing (ret a).
Proof. apply preserves_ret. apply framed_nil. Qed.

Lemma framing_load l : framing (load l).
Proof. intros m _. split; [apply framed_nil | exact I]. Qed.

Lemma framing_emit e : quiet e -> framing (emit e).
Proof.
  intros He m _. split; [|exact I].
  apply framed_quiet; [exact He | apply framed_nil].
Qed.

Lemma framing_store l v : quiet (Store l 0) -> framing (store l v).
Proof.
  intros Hl m _. split; [|exact I].
  apply framed_quiet; [|apply framed_nil].
  destruct l as [| |q []]; try exact I. destruct Hl.
Qed.

Lemma framing_or_assign l v : quiet (Store l 0) -> framing (or_assign l v).
Proof.
  intros Hl. apply framing_bind; [apply framing_load|].
  intros x. apply framing_store, Hl.
Qed.

Lemma framing_and_assign l v : quiet (Store l 0) -> framing (and_assign l v).
Proof.
  intros Hl. apply framing_bind; [apply framing_load|].
  intros x. apply framing_store, Hl.
Qed.

Lemma framing_delayMs n : framing (delayMs n).
Proof. apply framing_emit. exact I. Qed.

End Framing.

Lemma LCD_shift_out1_framing b :
  preserves any_state (framed PORTE 0x20) (LCD.shift_out1 b).
Proof.
  intros m _. unfold events. rewrite LCD_shift_out1_run.
  split; [apply framed_shift_trace | exact I].
Qed.

Lemma SevenSeg_shift_out1_framing b :
  preserves any_state (framed PORTC 0x10) (SevenSeg.shift_out1 b).
Proof.
  intros m _. unfold events. rewrite SevenSeg_shift_out1_run.
  split; [apply framed_shift_trace | exact I].
Qed.

Ltac framing_step known :=
  lazymatch goal with
  | |- preserves _ _ (bind _ _) => apply framing_bind; [|intros ?]
  | |- preserves _ _ (ret _) => apply framing_ret
  | |- preserves _ _ (load _) => apply framing_load
  | |- preserves _ _ (delayMs _) => apply framing_delayMs
  | |- preserves _ _ (store _ _) => apply framing_store; exact I
  | |- preserves _ _ (or_assign _ _) => apply framing_or_assign; exact I
  | |- preserves _ _ (and_assign _ _) => apply framing_and_assign; exact I
  | |- preserves _ _ (LCD.shift_out1 _) => apply LCD_shift_out1_framing
  | |- preserves _ _ (SevenSeg.shift_out1 _) =>
      apply SevenSeg_shift_out1_framing
  | |- _ => known
  end.

Ltac framing := repeat framing_step fail.

Lemma LCD_command_framing c :
  preserves any_state (framed PORTE 0x20) (LCD.LCD_command c).
Proof. unfold LCD.LCD_command. cbv zeta. framing. Qed.

Lemma LCD_putc_framing c :
  preserves any_state (framed PORTE 0x20) (LCD.LCD_putc c).
Proof. unfold LCD.LCD_putc. cbv zeta. framing. Qed.

Lemma LCD_puts_framing s :
  preserves any_state (framed PORTE 0x20) (LCD.LCD_puts s).
Proof.
  induction s as [|c s IH]; cbn [LCD.LCD_puts]; [framing|].
  destruct (LCD.char_code c =? 0); [framing|].
  apply framing_bind; [apply LCD_putc_framing | intros _; exact IH].
Qed.

Lemma LCD_init_framing :
  preserves any_state (framed PORTE 0x20) LCD.LCD_init.
Proof.
  unfold LCD.LCD_init.
  repeat framing_step ltac:(apply LCD_command_framing).
Qed.

Lemma LCD_main_framing :
  preserves any_state (framed PORTE 0x20) LCD.main.
Proof.
  unfold LCD.main, LCD.LCD_row1, LCD.LCD_row2.
  repeat framing_step
    ltac:(first [ exact LCD_init_framing
                | apply LCD_puts_framing
                | apply LCD_command_framing ]).
Qed.

Lemma SevenSeg_loop_framing n :
  preserves any_state (framed PORTC 0x10) (SevenSeg.loop n).
Proof.
  induction n as [|n IH]; cbn [SevenSeg.loop]; [framing|].
  apply framing_bind; [|intros _; exact IH].
  unfold SevenSeg.loop_body, SevenSeg.show_digits, SevenSeg.clear_digits.
  framing.
Qed.

Lemma SevenSeg_main_framing n :
  preserves any_state (framed PORTC 0x10) (SevenSeg.main n).
Proof.
  unfold SevenSeg.main.
  repeat framing_step ltac:(apply SevenSeg_loop_framing).
Qed.

(** *** The RW bit *)

Lemma rw_shift_trace v latch mask b :
  RW b = v -> Forall (rw_is v) (shift_trace latch mask b).
Proof.
  intros Hb. unfold shift_trace.
  constructor; [exact Hb|]. constructor; [exact I|].
  apply Forall_app. split; [|repeat constructor].
  apply Forall_flat_map, Forall_forall. intros d _. repeat constructor.
Qed.

Lemma rw_nibble_trace v s :
  RW (loaded s) = v -> RW (moded s) = v ->
  RW (strobed s) = v -> RW (released s) = v ->
  Forall (rw_is v) (nibble_trace s).
Proof.
  intros H1 H2 H3 H4. unfold nibble_trace.
  do 3 (apply Forall_cons; [assumption|]).
  apply Forall_app. split; [now apply rw_shift_trace|].
  constructor; [assumption|]. now apply rw_shift_trace.
Qed.

(** [LCD_command] leaves RW as it finds it. *)
Lemma LCD_command_rw c m :
  Forall (rw_is (RW (pp2 m))) (events (LCD.LCD_command c) m)
  /\ RW (pp2 (final (LCD.LCD_command c) m)) = RW (pp2 m).
Proof.
  unfold events, final. rewrite LCD_command_run. cbn [fst snd].
  unfold byte_trace, byte_final, second_steps, first_steps.
  destruct (command_steps_bits (pp2 m) (high_nibble (LCD.remap c))
              (high_nibble_range _)) as (_ & _ & _ & _ & R1 & R2 & R3 & R4).
  destruct (command_steps_bits
              (released (command_steps (pp2 m) (high_nibble (LCD.remap c))))
              (low_nibble (LCD.remap c))
              (low_nibble_range _)) as (_ & _ & _ & _ & S1 & S2 & S3 & S4).
  cbv zeta in *. rewrite R4 in S1, S2, S3, S4.
  split.
  - apply Forall_app. split; apply rw_nibble_trace; assumption.
  - exact S4.
Qed.

(** [LCD_putc] clears RW before it shifts anything out. *)
Lemma LCD_putc_rw c m :
  Forall (fun b => RW b = false) (shifted_bytes (events (LCD.LCD_putc c) m))
  /\ RW (pp2 (final (LCD.LCD_putc c) m)) = false
  /\ (RW (pp2 m) = false -> rw_clear (events (LCD.LCD_putc c) m)).
Proof.
  unfold events, final. rewrite LCD_putc_run. cbn [fst snd].
  unfold byte_trace, byte_final, second_steps, first_steps.
  destruct (data_steps_bits (pp2 m) (high_nibble (LCD.remap c))
              (high_nibble_range _)) as (_ & _ & _ & _ & R1 & R2 & R3 & R4).
  destruct (data_steps_bits
              (released (data_steps (pp2 m) (high_nibble (LCD.remap c))))
              (low_nibble (LCD.remap c))
              (low_nibble_range _)) as (_ & _ & _ & _ & S1 & S2 & S3 & S4).
  cbv zeta in *. rewrite R4 in S1, S2.
  repeat split.
  - unfold nibble_trace. cbn [app shifted_bytes].
    rewrite !shifted_bytes_app. cbn [shifted_bytes].
    rewrite !shifted_bytes_app, !shifted_bytes_shift_trace.
    cbn [app shifted_bytes]. rewrite !shifted_bytes_shift_trace.
    repeat constructor; assumption.
  - exact S4.
  - intros Hp. rewrite Hp in R1, R2.
    apply Forall_app. split; apply rw_nibble_trace; assumption.
Qed.

Lemma pp2_write l v m : l <> PP2 -> pp2 (write l v m) = pp2 m.
Proof. destruct l as [| |[] []]; intros H; try reflexivity; now destruct H. Qed.

Section RwClear.

Let keeps {A} (c : M A) : Prop := preserves rw_state rw_clear c.

Lemma keeps_bind {A B} (c : M A) (k : A -> M B) :
  keeps c -> (forall a, keeps (k a)) -> keeps (bind c k).
Proof.
  apply preserves_bind. intros t1 t2 H1 H2. apply Forall_app. now split.
Qed.

Lemma keeps_ret {A} (a : A) : keeps (ret a).
Proof. apply preserves_ret. constructor. Qed.

Lemma keeps_delayMs n : keeps (delayMs n).
Proof. intros m Hm. split; [repeat constructor | exact Hm]. Qed.

Lemma keeps_or_assign l v : l <> PP2 -> keeps (or_assign l v).
Proof.
  intros Hl m Hm. unfold events, final, or_assign, bind, load, store.
  cbn [fst snd app]. split.
  - constructor; [|constructor]. destruct l; [now destruct Hl | exact I..].
  - unfold rw_state. now rewrite pp2_write.
Qed.

Lemma keeps_LCD_command c : keeps (LCD.LCD_command c).
Proof.
  intros m Hm. destruct (LCD_command_rw c m) as [Ht Hf].
  unfold rw_state in *. rewrite Hm in Ht, Hf. now split.
Qed.

Lemma keeps_LCD_putc c : keeps (LCD.LCD_putc c).
Proof.
  intros m Hm. destruct (LCD_putc_rw c m) as (_ & Hf & Ht).
  split; [exact (Ht Hm) | exact Hf].
Qed.

Lemma keeps_LCD_puts s : keeps (LCD.LCD_puts s).
Proof.
  induction s as [|c s IH]; cbn [LCD.LCD_puts]; [apply keeps_ret|].
  destruct (LCD.char_code c =? 0); [apply keeps_ret|].
  apply keeps_bind; [apply keeps_LCD_putc | intros _; exact IH].
Qed.

End RwClear.

Ltac keeps_step :=
  lazymatch goal with
  | |- preserves _ _ (bind _ _) => apply keeps_bind; [|intros ?]
  | |- preserves _ _ (delayMs _) => apply keeps_delayMs
  | |- preserves _ _ (or_assign _ _) => apply keeps_or_assign; discriminate
  | |- preserves _ _ (LCD.LCD_command _) => apply keeps_LCD_command
  | |- preserves _ _ (LCD.LCD_putc _) => apply keeps_LCD_putc
  | |- preserves _ _ (LCD.LCD_puts _) => apply keeps_LCD_puts
  end.

Lemma keeps_LCD_init : preserves rw_state rw_clear LCD.LCD_init.
Proof. unfold LCD.LCD_init. repeat keeps_step. Qed.

Lemma keeps_LCD_main : preserves rw_state rw_clear LCD.main.
Proof.
  unfold LCD.main, LCD.LCD_row1, LCD.LCD_row2.
  repeat first [exact keeps_LCD_init | keeps_step].
Qed.

(** *** The calls a command or a character makes *)

Lemma calls_app t1 t2 : calls (t1 ++ t2) = calls t1 ++ calls t2.
Proof.
  induction t1 as [|[l v|b|n] t1 IH]; cbn [app calls];
    [reflexivity | | rewrite IH | rewrite IH]; auto.
Qed.

Lemma calls_cycles bits : calls (flat_map cycle bits) = [].
Proof. induction bits as [|d bits IH]; [reflexivity | exact IH]. Qed.

Lemma calls_shift_trace latch mask b :
  calls (shift_trace latch mask b) = [Shift b].
Proof.
  unfold shift_trace. cbn [calls]. now rewrite calls_app, calls_cycles.
Qed.

Lemma calls_nibble_trace s :
  calls (nibble_trace s) = [Shift (strobed s); Shift (released s)].
Proof.
  unfold nibble_trace. cbn [calls]. rewrite calls_app. cbn [calls].
  now rewrite !calls_shift_trace.
Qed.

Lemma calls_byte_trace mode p c :
  calls (byte_trace mode p c) = map Shift (byte_shifts mode p c).
Proof.
  unfold byte_trace. now rewrite calls_app, !calls_nibble_trace.
Qed.

Lemma shifted_bytes_nibble_trace s :
  shifted_bytes (nibble_trace s) = [strobed s; released s].
Proof.
  unfold nibble_trace. cbn [shifted_bytes]. rewrite shifted_bytes_app.
  cbn [shifted_bytes]. now rewrite !shifted_bytes_shift_trace.
Qed.

Lemma shifted_bytes_byte_trace mode p c :
  shifted_bytes (byte_trace mode p c) = byte_shifts mode p c.
Proof.
  unfold byte_trace.
  now rewrite shifted_bytes_app, !shifted_bytes_nibble_trace.
Qed.

Lemma land_nibble_high nib k :
  0 <= nib < 16 -> Z.land k 0x0F = 0 -> Z.land nib k = 0.
Proof.
  intros Hn Hk. rewrite <- (Z.mod_small nib 16) by lia.
  change 16 with (2 ^ 4). rewrite <- Z.land_ones by lia.
  rewrite <- Z.land_assoc, (Z.land_comm (Z.ones 4) k).
  change (Z.ones 4) with 0x0F. rewrite Hk. apply Z.land_0_r.
Qed.

Lemma land_lor_keep p nib k :
  0 <= nib < 16 -> Z.land k 0x0F = 0 ->
  Z.land (Z.lor (Z.land p k) nib) k = Z.land p k.
Proof.
  intros Hn Hk. rewrite Z.land_lor_distr_l, <- Z.land_assoc, Z.land_diag.
  rewrite (land_nibble_high nib k Hn Hk). apply Z.lor_0_r.
Qed.

Lemma byte_shifts_command p c :
  byte_shifts command_steps p c = command_bytes (Z.land p 0x50) c
  /\ Z.land (released (second_steps command_steps p c)) 0x50 = Z.land p 0x50.
Proof.
  unfold byte_shifts, second_steps, first_steps, command_bytes.
  pose proof (high_nibble_range (LCD.remap c)) as Hh.
  pose proof (low_nibble_range (LCD.remap c)) as Hl.
  destruct (command_steps_bits p _ Hh) as ((A1 & A2 & _) & _).
  destruct (command_steps_bits
              (released (command_steps p (high_nibble (LCD.remap c)))) _ Hl)
    as ((B1 & B2 & _) & _).
  cbv zeta in *. rewrite B1, B2, A1, A2.
  rewrite (land_lor_keep p _ 0x50 Hh eq_refl).
  rewrite (land_lor_keep p _ 0x50 Hl eq_refl). split; reflexivity.
Qed.

Lemma data_steps_keep p nib :
  0 <= nib < 16 ->
  Z.land (released (data_steps p nib)) 0x10 = Z.land p 0x10.
Proof.
  intros Hn. destruct (data_steps_bits p nib Hn) as ((_ & A2 & _) & _).
  cbv zeta in A2. rewrite A2, Z.land_lor_distr_l.
  rewrite (land_lor_keep p nib 0x10 Hn eq_refl). apply Z.lor_0_r.
Qed.

Lemma byte_shifts_data p c :
  byte_shifts data_steps p c = data_bytes (Z.land p 0x10) c
  /\ Z.land (released (second_steps data_steps p c)) 0x10 = Z.land p 0x10.
Proof.
  unfold byte_shifts, second_steps, first_steps, data_bytes.
  pose proof (high_nibble_range (LCD.remap c)) as Hh.
  pose proof (low_nibble_range (LCD.remap c)) as Hl.
  rewrite !data_steps_keep by assumption.
  destruct (data_steps_bits p _ Hh) as ((A1 & A2 & _) & _).
  destruct (data_steps_bits
              (released (data_steps p (high_nibble (LCD.remap c)))) _ Hl)
    as ((B1 & B2 & _) & _).
  cbv zeta in *. rewrite B1, B2.
  rewrite !data_steps_keep by assumption. rewrite A1, A2.
  split; reflexivity.
Qed.

(** *** Stores into the data registers *)

Lemma port_stores_app p t1 t2 :
  port_stores p (t1 ++ t2) = port_stores p t1 ++ port_stores p t2.
Proof.
  induction t1 as [|[[| |q []] v|b|n] t1 IH]; cbn [app port_stores];
    try exact IH; [reflexivity|].
  destruct (port_eqb p q); [now rewrite IH | exact IH].
Qed.

Lemma port_stores_cycles p bits :
  port_stores p (flat_map cycle bits) =
  if port_eqb p PORTF then flat_map cycle_values bits else [].
Proof.
  induction bits as [|d bits IH]; [now destruct p|].
  cbn [flat_map]. rewrite port_stores_app, IH. now destruct p.
Qed.

Lemma port_stores_shift_trace latch mask b :
  is_latch latch mask ->
  port_stores latch (shift_trace latch mask b) = [0; mask]
  /\ port_stores PORTF (shift_trace latch mask b) =
     flat_map cycle_values (byte_bits b).
Proof.
  intros Hl. unfold shift_trace. cbn [port_stores].
  rewrite !port_stores_app, !port_stores_cycles.
  destruct Hl as [[-> ->]|[-> ->]]; cbn [port_eqb port_stores app];
    now rewrite app_nil_r.
Qed.

Lemma pp2_stores_app t1 t2 :
  pp2_stores (t1 ++ t2) = pp2_stores t1 ++ pp2_stores t2.
Proof.
  induction t1 as [|[[| |q r] v|b|n] t1 IH]; cbn [app pp2_stores];
    try exact IH; [reflexivity|]. now rewrite IH.
Qed.

Lemma pp2_stores_shift_trace latch mask b :
  pp2_stores (shift_trace latch mask b) = [].
Proof.
  unfold shift_trace. cbn [pp2_stores]. rewrite pp2_stores_app.
  cbn [pp2_stores]. rewrite app_nil_r.
  induction (byte_bits b) as [|d bits IH]; [reflexivity | exact IH].
Qed.

Lemma rw_clear_values t :
  rw_clear t ->
  Forall (fun v => RW v = false) (pp2_stores t)
  /\ Forall (fun b => RW b = false) (shifted_bytes t).
Proof.
  induction 1 as [|[[| |q r] v|b|n] t He _ [IH1 IH2]];
    cbn [pp2_stores shifted_bytes]; split; auto.
Qed.

Lemma clocked_bits_app o1 o2 :
  clocked_bits (o1 ++ o2) = clocked_bits o1 ++ clocked_bits o2.
Proof.
  induction o1 as [|[l d|n] o1 IH]; cbn [app clocked_bits];
    [reflexivity | now rewrite IH | exact IH].
Qed.

Lemma clocked_bits_clock l bits :
  clocked_bits (map (ClockRise l) bits) = bits.
Proof.
  induction bits as [|d bits IH]; [reflexivity|].
  cbn [map clocked_bits]. now rewrite IH.
Qed.

Lemma edges_shift_trace latch mask b s :
  is_latch latch mask ->
  edges latch mask (shift_trace latch mask b) s =
  map (ClockRise false) (byte_bits b) ++ [LatchRise (8 + clocked s)].
Proof.
  intros Hl. unfold edges. now rewrite watch_shift_trace.
Qed.

Lemma LCD_is_latch : is_latch PORTE 0x20.
Proof. left. split; reflexivity. Qed.

Lemma SevenSeg_is_latch : is_latch PORTC 0x10.
Proof. right. split; reflexivity. Qed.

Lemma LCD_shift_out1_events b m :
  events (LCD.shift_out1 b) m = shift_trace PORTE 0x20 b.
Proof. unfold events. now rewrite LCD_shift_out1_run. Qed.

Lemma SevenSeg_shift_out1_events b m :
  events (SevenSeg.shift_out1 b) m = shift_trace PORTC 0x10 b.
Proof. unfold events. now rewrite SevenSeg_shift_out1_run. Qed.

Lemma LCD_shift_out1_final b m :
  final (LCD.shift_out1 b) m = shift_final PORTE 0x20 b m.
Proof. unfold final. now rewrite LCD_shift_out1_run. Qed.

Lemma SevenSeg_shift_out1_final b m :
  final (SevenSeg.shift_out1 b) m = shift_final PORTC 0x10 b m.
Proof. unfold final. now rewrite SevenSeg_shift_out1_run. Qed.

Lemma level_cycle d :
  level SCLK 0 = false
  /\ (level SCLK (sdata_of d) = false /\ level SDATA (sdata_of d) = d)
  /\ (level SCLK (Z.lor (sdata_of d) SCLK) = true
      /\ level SDATA (Z.lor (sdata_of d) SCLK) = d).
Proof. destruct d; repeat split; reflexivity. Qed.

Lemma pp2_byte_final mode c m :
  pp2 (byte_final mode c m) = released (second_steps mode (pp2 m) c).
Proof. reflexivity. Qed.

Lemma LCD_command_events c m :
  events (LCD.LCD_command c) m = byte_trace command_steps (pp2 m) c.
Proof. unfold events. now rewrite LCD_command_run. Qed.

Lemma LCD_putc_events c m :
  events (LCD.LCD_putc c) m = byte_trace data_steps (pp2 m) c.
Proof. unfold events. now rewrite LCD_putc_run. Qed.

Lemma LCD_command_calls c m :
  calls (events (LCD.LCD_command c) m)
    = map Shift (command_bytes (Z.land (pp2 m) 0x50) c)
  /\ Z.land (pp2 (final (LCD.LCD_command c) m)) 0x50 = Z.land (pp2 m) 0x50.
Proof.
  rewrite LCD_command_events. unfold final. rewrite LCD_command_run.
  cbn [fst snd]. rewrite pp2_byte_final, calls_byte_trace.
  destruct (byte_shifts_command (pp2 m) c) as [-> ->]. now split.
Qed.

Lemma LCD_putc_calls c m :
  calls (events (LCD.LCD_putc c) m)
    = map Shift (data_bytes (Z.land (pp2 m) 0x10) c)
  /\ Z.land (pp2 (final (LCD.LCD_putc c) m)) 0x10 = Z.land (pp2 m) 0x10.
Proof.
  rewrite LCD_putc_events. unfold final. rewrite LCD_putc_run.
  cbn [fst snd]. rewrite pp2_byte_final, calls_byte_trace.
  destruct (byte_shifts_data (pp2 m) c) as [-> ->]. now split.
Qed.

Lemma command_pair p nib :
  0 <= nib < 16 ->
  nibble_pair nib (strobed (command_steps p nib))
              (released (command_steps p nib)).
Proof.
  intros Hn.
  destruct (command_steps_bits p nib Hn)
    as ((_ & _ & D) & (N1 & N2) & (E1 & E2) & _).
  repeat split; assumption.
Qed.

Lemma data_pair p nib :
  0 <= nib < 16 ->
  nibble_pair nib (strobed (data_steps p nib))
              (released (data_steps p nib)).
Proof.
  intros Hn.
  destruct (data_steps_bits p nib Hn)
    as ((_ & _ & D) & (N1 & N2) & (E1 & E2) & _).
  repeat split; assumption.
Qed.

Lemma calls_delayMs n m : calls (events (delayMs n) m) = [Wait n].
Proof. reflexivity. Qed.

Lemma final_delayMs n m : final (delayMs n) m = m.
Proof. reflexivity. Qed.

(** * Properties of the specification *)

(** C1.  [shift_out1], in both programs, sends its byte least significant
    bit first.  After the entry and the store that takes the latch low,
    a call makes exactly eight clock cycles, one for each of bits 0 to 7
    in this order; cycle [j] stores 0 into port F (clock low), then the
    value that presents bit [j] on SDATA with the clock still low, then
    the same value with SCLK set (clock high, data held).  The shift
    register therefore samples, at its eight rising clock edges, bits 0
    to 7 of the byte; for the byte 0b00000001 it samples a high level at
    the first edge and a low level at the other seven. *)
Theorem shift_out1_lsb_first (b : Z) (m : machine) :
  0 <= b < 256 ->
  (events (LCD.shift_out1 b) m =
     Call_shift_out1 b :: Store GPIO_PORTE_DATA_R 0
       :: flat_map cycle (byte_bits b) ++ [Store GPIO_PORTE_DATA_R 0x20]
   /\ events (SevenSeg.shift_out1 b) m =
     Call_shift_out1 b :: Store GPIO_PORTC_DATA_R 0
       :: flat_map cycle (byte_bits b) ++ [Store GPIO_PORTC_DATA_R 0x10])
  /\ byte_bits b =
     [Z.testbit b 0; Z.testbit b 1; Z.testbit b 2; Z.testbit b 3;
      Z.testbit b 4; Z.testbit b 5; Z.testbit b 6; Z.testbit b 7]
  /\ (forall d,
        cycle d =
          [Store GPIO_PORTF_DATA_R 0;
           Store GPIO_PORTF_DATA_R (sdata_of d);
           Store GPIO_PORTF_DATA_R (Z.lor (sdata_of d) SCLK)]
        /\ level SCLK 0 = false
        /\ (level SCLK (sdata_of d) = false /\ level SDATA (sdata_of d) = d)
        /\ (level SCLK (Z.lor (sdata_of d) SCLK) = true
            /\ level SDATA (Z.lor (sdata_of d) SCLK) = d))
  /\ (forall s,
        clocked_bits (edges PORTE 0x20 (events (LCD.shift_out1 b) m) s)
          = byte_bits b
        /\ clocked_bits
             (edges PORTC 0x10 (events (SevenSeg.shift_out1 b) m) s)
          = byte_bits b)
  /\ (forall s,
        clocked_bits (edges PORTE 0x20 (events (LCD.shift_out1 1) m) s)
          = [true; false; false; false; false; false; false; false]
        /\ clocked_bits
             (edges PORTC 0x10 (events (SevenSeg.shift_out1 1) m) s)
          = [true; false; false; false; false; false; false; false]).
Proof.
  intros _.
  assert (Hbits : forall x s,
    clocked_bits (edges PORTE 0x20 (events (LCD.shift_out1 x) m) s)
      = byte_bits x
    /\ clocked_bits (edges PORTC 0x10 (events (SevenSeg.shift_out1 x) m) s)
      = byte_bits x).
  { intros x s.
    rewrite LCD_shift_out1_events, SevenSeg_shift_out1_events.
    rewrite (edges_shift_trace _ _ x s LCD_is_latch).
    rewrite (edges_shift_trace _ _ x s SevenSeg_is_latch).
    rewrite !clocked_bits_app, !clocked_bits_clock.
    cbn [clocked_bits]. now rewrite app_nil_r. }
  split; [|split; [|split; [|split]]].
  - rewrite LCD_shift_out1_events, SevenSeg_shift_out1_events.
    split; reflexivity.
  - reflexivity.
  - intros d. split; [reflexivity | apply level_cycle].
  - intros s. apply Hbits.
  - intros s. exact (Hbits 1 s).
Qed.

(** The byte 0xA5 = 0b10100101 on the LCD's shift register. *)
Lemma shift_out1_lsb_first_witness :
  0 <= 0xA5 < 256
  /\ clocked_bits
       (edges PORTE 0x20 (events (LCD.shift_out1 0xA5) power_on)
              (mkLines false false 0))
     = [true; false; true; false; false; true; false; true].
Proof.
  split; [lia|].
  destruct (shift_out1_lsb_first 0xA5 power_on) as (_ & _ & _ & H & _);
    [lia|].
  destruct (H (mkLines false false 0)) as [H1 _]. rewrite H1. reflexivity.
Defined.

(** C2 (as stated, refuted).  The four values the specification gives for
    the remapping do not all hold: the remapping sends 0x10 to 0x80, not
    to 0x02. *)
Lemma remap_golden_values_refuted :
  ~ (LCD.remap 0x00 = 0x00 /\ LCD.remap 0xFF = 0xFF
     /\ LCD.remap 0x01 = 0x08 /\ LCD.remap 0x10 = 0x02).
Proof. intros (_ & _ & _ & H). vm_compute in H. discriminate H. Qed.

(** C2 (amended).  remap(0x00) = 0x00, remap(0xFF) = 0xFF,
    remap(0x01) = 0x08 and remap(0x10) = 0x80. *)
Theorem remap_golden_values :
  LCD.remap 0x00 = 0x00 /\ LCD.remap 0xFF = 0xFF
  /\ LCD.remap 0x01 = 0x08 /\ LCD.remap 0x10 = 0x80.
Proof. repeat split; reflexivity. Qed.

(** C8.  The remapping is an involution on bytes: applied twice to an
    8-bit value it gives the value back. *)
Theorem remap_involution (b : Z) :
  0 <= b < 256 -> LCD.remap (LCD.remap b) = b.
Proof. apply remap_remap. Qed.

Lemma remap_involution_witness :
  0 <= 0x41 < 256
  /\ LCD.remap 0x41 = 0x28
  /\ LCD.remap (LCD.remap 0x41) = 0x41.
Proof.
  split; [lia|]. split; [reflexivity|].
  apply (remap_involution 0x41). lia.
Defined.

(** C10.  [shift_out1] overwrites the whole data registers it uses.  Its
    stores into the latch port are 0x00 and the latch mask; its stores
    into port F are, for each bit, 0x00, the SDATA value and the SDATA
    value with SCLK.  Whatever the registers held before the call, after
    it the latch port's data register holds the latch bit alone and
    port F's holds SCLK, with SDATA if bit 7 of the byte is set: every
    other bit of both registers is 0. *)
Theorem shift_out1_overwrites_ports (b : Z) (m : machine) :
  (port_stores PORTE (events (LCD.shift_out1 b) m) = [0x00; 0x20]
   /\ port_stores PORTF (events (LCD.shift_out1 b) m)
      = flat_map cycle_values (byte_bits b)
   /\ read GPIO_PORTE_DATA_R (final (LCD.shift_out1 b) m) = 0x20
   /\ read GPIO_PORTF_DATA_R (final (LCD.shift_out1 b) m)
      = Z.lor (sdata_of (Z.testbit b 7)) SCLK
   /\ Z.land (read GPIO_PORTE_DATA_R (final (LCD.shift_out1 b) m))
             (Z.lnot 0x20) = 0
   /\ Z.land (read GPIO_PORTF_DATA_R (final (LCD.shift_out1 b) m))
             (Z.lnot (Z.lor SDATA SCLK)) = 0)
  /\ (port_stores PORTC (events (SevenSeg.shift_out1 b) m) = [0x00; 0x10]
      /\ port_stores PORTF (events (SevenSeg.shift_out1 b) m)
         = flat_map cycle_values (byte_bits b)
      /\ read GPIO_PORTC_DATA_R (final (SevenSeg.shift_out1 b) m) = 0x10
      /\ read GPIO_PORTF_DATA_R (final (SevenSeg.shift_out1 b) m)
         = Z.lor (sdata_of (Z.testbit b 7)) SCLK
      /\ Z.land (read GPIO_PORTC_DATA_R (final (SevenSeg.shift_out1 b) m))
                (Z.lnot 0x10) = 0
      /\ Z.land (read GPIO_PORTF_DATA_R (final (SevenSeg.shift_out1 b) m))
                (Z.lnot (Z.lor SDATA SCLK)) = 0).
Proof.
  rewrite LCD_shift_out1_events, SevenSeg_shift_out1_events.
  rewrite LCD_shift_out1_final, SevenSeg_shift_out1_final.
  destruct (port_stores_shift_trace PORTE 0x20 b LCD_is_latch) as [E1 E2].
  destruct (port_stores_shift_trace PORTC 0x10 b SevenSeg_is_latch)
    as [C1 C2].
  rewrite E1, E2, C1, C2.
  destruct m as [p r [] [] []].
  cbv beta iota delta
    [shift_final read write port_get port_set gpio_get gpio_set
     pp2 rcgcgpio portc porte portf dir den data].
  destruct (Z.testbit b 7); repeat split; reflexivity.
Qed.

(** C4.  [LCD_command] and [LCD_putc] each call [shift_out1] exactly four
    times for a byte, and make no other call: twice for the high nibble
    of the remapped byte, then twice for its low nibble.  Within a
    nibble the first byte shifted out has EN set and the second is the
    same byte with EN cleared, so EN has fallen before the next nibble
    begins.  The high (low) nibble of the remapped byte is the high
    (low) nibble of the byte given, its four bits in reverse order.
    Beside the nibble and EN, the bytes of a command carry RS = 0 and
    bits 6 and 4 of [PP2] as found; those of a character carry RS = 1,
    RW = 0 and bit 4 of [PP2] as found. *)
Theorem byte_sent_as_two_nibble_pairs (c : Z) (m : machine) :
  0 <= c < 256 ->
  (exists b1 b2 b3 b4,
      calls (events (LCD.LCD_command c) m)
        = [Shift b1; Shift b2; Shift b3; Shift b4]
      /\ nibble_pair (high_nibble (LCD.remap c)) b1 b2
      /\ nibble_pair (low_nibble (LCD.remap c)) b3 b4)
  /\ (exists b1 b2 b3 b4,
         calls (events (LCD.LCD_putc c) m)
           = [Shift b1; Shift b2; Shift b3; Shift b4]
         /\ nibble_pair (high_nibble (LCD.remap c)) b1 b2
         /\ nibble_pair (low_nibble (LCD.remap c)) b3 b4)
  /\ (high_nibble (LCD.remap c) = reverse4 (high_nibble c)
      /\ low_nibble (LCD.remap c) = reverse4 (low_nibble c))
  /\ calls (events (LCD.LCD_command c) m)
     = map Shift (command_bytes (Z.land (pp2 m) 0x50) c)
  /\ calls (events (LCD.LCD_putc c) m)
     = map Shift (data_bytes (Z.land (pp2 m) 0x10) c).
Proof.
  intros Hc.
  pose proof (high_nibble_range (LCD.remap c)) as Hh.
  pose proof (low_nibble_range (LCD.remap c)) as Hl.
  split; [|split; [|split; [exact (remap_nibbles c Hc)|split]]];
    [| |exact (proj1 (LCD_command_calls c m))
        |exact (proj1 (LCD_putc_calls c m))].
  - rewrite LCD_command_events, calls_byte_trace.
    unfold byte_shifts. cbn [map]. do 4 eexists.
    split; [reflexivity|].
    split; [apply command_pair, Hh | apply command_pair, Hl].
  - rewrite LCD_putc_events, calls_byte_trace.
    unfold byte_shifts. cbn [map]. do 4 eexists.
    split; [reflexivity|].
    split; [apply data_pair, Hh | apply data_pair, Hl].
Qed.

(** The letter A (0x41), remapped to 0x28, as a command and as data
    after reset. *)
Lemma byte_sent_as_two_nibble_pairs_witness :
  0 <= 0x41 < 256
  /\ calls (events (LCD.LCD_command 0x41) power_on)
     = [Shift 0x22; Shift 0x02; Shift 0x28; Shift 0x08]
  /\ calls (events (LCD.LCD_putc 0x41) power_on)
     = [Shift 0xA2; Shift 0x82; Shift 0xA8; Shift 0x88]
  /\ (exists b1 b2 b3 b4,
         calls (events (LCD.LCD_command 0x41) power_on)
           = [Shift b1; Shift b2; Shift b3; Shift b4]
         /\ nibble_pair (high_nibble (LCD.remap 0x41)) b1 b2
         /\ nibble_pair (low_nibble (LCD.remap 0x41)) b3 b4).
Proof.
  split; [lia|]. split; [vm_compute; reflexivity|].
  split; [vm_compute; reflexivity|].
  destruct (byte_sent_as_two_nibble_pairs 0x41 power_on) as [H _];
    [lia | exact H].
Defined.

(** C3 (as stated, refuted).  It is not the case that a call of
    [shift_out1] leaves the latch line alone: already for the byte 0x00
    from the reset state, in either program, the call stores into the
    data register of the latch port. *)
Lemma shift_out1_no_implicit_latch_refuted :
  ~ no_implicit_latch LCD.shift_out1 PORTE
  /\ ~ no_implicit_latch SevenSeg.shift_out1 PORTC.
Proof.
  split; intros H; specialize (H 0x00 power_on ltac:(lia));
    vm_compute in H; discriminate H.
Qed.

(** C3 (amended).  [shift_out1] drives the latch itself: every call takes
    the latch low on entry and high after the eighth bit, which is one
    rising latch edge for each byte.  Its callers store into the data
    registers through [shift_out1] only, so the latch follows the calls:
    [LCD_command] and [LCD_putc] latch four times for a byte, twice for
    each nibble, and the five transfers that show the digits of the
    7-segment display latch five times, once after each byte. *)
Theorem shift_out1_latches_each_byte :
  (forall b m s,
      port_stores PORTE (events (LCD.shift_out1 b) m) = [0x00; 0x20]
      /\ latch_rises (edges PORTE 0x20 (events (LCD.shift_out1 b) m) s)
         = 1%nat)
  /\ (forall b m s,
        port_stores PORTC (events (SevenSeg.shift_out1 b) m) = [0x00; 0x10]
        /\ latch_rises
             (edges PORTC 0x10 (events (SevenSeg.shift_out1 b) m) s)
           = 1%nat)
  /\ (forall c m ck l,
        framed PORTE 0x20 (events (LCD.LCD_command c) m)
        /\ latch_rises
             (edges PORTE 0x20 (events (LCD.LCD_command c) m)
                    (mkLines ck l 0))
           = 4%nat)
  /\ (forall c m ck l,
        framed PORTE 0x20 (events (LCD.LCD_putc c) m)
        /\ latch_rises
             (edges PORTE 0x20 (events (LCD.LCD_putc c) m)
                    (mkLines ck l 0))
           = 4%nat)
  /\ (forall m ck l,
        framed PORTC 0x10 (events SevenSeg.show_digits m)
        /\ shifted_bytes (events SevenSeg.show_digits m)
           = [0x66; 0xF2; 0xDA; 0x60; 0xFF]
        /\ latch_rises
             (edges PORTC 0x10 (events SevenSeg.show_digits m)
                    (mkLines ck l 0))
           = 5%nat).
Proof.
  assert (Hone : forall latch mask b s, is_latch latch mask ->
    latch_rises (edges latch mask (shift_trace latch mask b) s) = 1%nat).
  { intros latch mask b s Hl. rewrite (edges_shift_trace _ _ b s Hl).
    now rewrite latch_rises_app, latch_rises_clock. }
  split; [|split; [|split; [|split]]].
  - intros b m s. rewrite LCD_shift_out1_events. split.
    + apply (port_stores_shift_trace PORTE 0x20 b LCD_is_latch).
    + apply Hone, LCD_is_latch.
  - intros b m s. rewrite SevenSeg_shift_out1_events. split.
    + apply (port_stores_shift_trace PORTC 0x10 b SevenSeg_is_latch).
    + apply Hone, SevenSeg_is_latch.
  - intros c m ck l.
    destruct (LCD_command_framing c m I) as [Hf _]. split; [exact Hf|].
    destruct (framed_watch _ _ _ LCD_is_latch Hf (mkLines ck l 0) eq_refl)
      as (_ & _ & ->).
    now rewrite LCD_command_events, shifted_bytes_byte_trace.
  - intros c m ck l.
    destruct (LCD_putc_framing c m I) as [Hf _]. split; [exact Hf|].
    destruct (framed_watch _ _ _ LCD_is_latch Hf (mkLines ck l 0) eq_refl)
      as (_ & _ & ->).
    now rewrite LCD_putc_events, shifted_bytes_byte_trace.
  - intros m ck l.
    assert (Hf : framed PORTC 0x10 (events SevenSeg.show_digits m)).
    { assert (H : preserves any_state (framed PORTC 0x10)
                    SevenSeg.show_digits)
        by (unfold SevenSeg.show_digits; framing).
      exact (proj1 (H m I)). }
    assert (Hb : shifted_bytes (events SevenSeg.show_digits m)
                 = [0x66; 0xF2; 0xDA; 0x60; 0xFF]).
    { unfold SevenSeg.show_digits.
      rewrite !events_bind, !shifted_bytes_app.
      rewrite !SevenSeg_shift_out1_events, !shifted_bytes_shift_trace.
      reflexivity. }
    split; [exact Hf|]. split; [exact Hb|].
    destruct (framed_watch _ _ _ SevenSeg_is_latch Hf (mkLines ck l 0)
                eq_refl) as (_ & _ & ->).
    now rewrite Hb.
Qed.

(** C7.  In every call of [shift_out1], in both programs, each of the
    eight rising clock edges happens with the latch low, and the one
    rising latch edge comes last, after exactly the eight clock edges of
    the call ([clocked s] being the clock edges pending since the last
    latch before the call).  In the whole LCD program and in any number
    of turns of the 7-segment program, started with no clock edge
    pending, every rising latch edge follows exactly eight rising clock
    edges since the last one: no partly shifted byte is ever latched. *)
Theorem shift_out1_latch_discipline :
  (forall b m s,
      edges PORTE 0x20 (events (LCD.shift_out1 b) m) s
        = map (ClockRise false) (byte_bits b) ++ [LatchRise (8 + clocked s)]
      /\ edges PORTC 0x10 (events (SevenSeg.shift_out1 b) m) s
        = map (ClockRise false) (byte_bits b) ++ [LatchRise (8 + clocked s)]
      /\ List.length (byte_bits b) = 8%nat)
  /\ (forall m ck l,
        Forall edge_ok
          (edges PORTE 0x20 (events LCD.main m) (mkLines ck l 0)))
  /\ (forall turns m ck l,
        Forall edge_ok
          (edges PORTC 0x10 (events (SevenSeg.main turns) m)
                 (mkLines ck l 0))).
Proof.
  split; [|split].
  - intros b m s.
    rewrite LCD_shift_out1_events, SevenSeg_shift_out1_events.
    rewrite (edges_shift_trace _ _ b s LCD_is_latch).
    rewrite (edges_shift_trace _ _ b s SevenSeg_is_latch).
    repeat split; reflexivity.
  - intros m ck l. destruct (LCD_main_framing m I) as [Hf _].
    apply (framed_watch _ _ _ LCD_is_latch Hf (mkLines ck l 0) eq_refl).
  - intros turns m ck l.
    destruct (SevenSeg_main_framing turns m I) as [Hf _].
    apply (framed_watch _ _ _ SevenSeg_is_latch Hf (mkLines ck l 0)
             eq_refl).
Qed.

(** C5 (as stated, refuted).  The three sends that follow the power-on
    delay of [LCD_init] are not single nibbles: from the reset state the
    first of them already shifts out four bytes, the two nibbles of a
    whole command. *)
Lemma LCD_init_raw_nibbles_refuted :
  ~ raw_nibble_sends (events LCD.LCD_init power_on).
Proof.
  intros H. specialize (H 1%nat ltac:(lia)).
  vm_compute in H. discriminate H.
Qed.

(** C5 (amended).  [LCD_init] waits 20 ms and then sends its eight
    commands through [LCD_command], each followed by a delay of 5 ms and
    each as the four bytes of a whole command (both nibbles, high
    first).  The first three are the command 0x30, whose remapped high
    nibble is 0xC and whose low nibble is 0; the fourth is the command
    0x20 that switches to the 4-bit interface, and its bytes differ from
    those of 0x30. *)
Theorem LCD_init_sends_whole_commands :
  (forall m,
      calls (events LCD.LCD_init m)
        = Wait 20
          :: flat_map
               (fun c =>
                  map Shift (command_bytes (Z.land (pp2 m) 0x50) c)
                  ++ [Wait 5])
               init_commands)
  /\ init_commands = [0x30; 0x30; 0x30; 0x20; 0x28; 0x0C; 0x06; 0x01]
  /\ (forall h,
        command_bytes h 0x30
          = [Z.lor (Z.lor h 0xC) 0x20; Z.lor h 0xC;
             Z.lor (Z.lor h 0x0) 0x20; Z.lor h 0x0]
        /\ command_bytes h 0x20
          = [Z.lor (Z.lor h 0x4) 0x20; Z.lor h 0x4;
             Z.lor (Z.lor h 0x0) 0x20; Z.lor h 0x0])
  /\ (forall m, exists m1 m2 m3 rest,
        events LCD.LCD_init m
          = Call_delayMs 20
            :: events (LCD.LCD_command 0x30) m
            ++ Call_delayMs 5
            :: events (LCD.LCD_command 0x30) m1
            ++ Call_delayMs 5
            :: events (LCD.LCD_command 0x30) m2
            ++ Call_delayMs 5
            :: events (LCD.LCD_command 0x20) m3
            ++ Call_delayMs 5 :: rest)
  /\ sends (calls (events LCD.LCD_init power_on))
     = [[];
        [0x2C; 0x0C; 0x20; 0x00];
        [0x2C; 0x0C; 0x20; 0x00];
        [0x2C; 0x0C; 0x20; 0x00];
        [0x24; 0x04; 0x20; 0x00];
        [0x24; 0x04; 0x21; 0x01];
        [0x20; 0x00; 0x23; 0x03];
        [0x20; 0x00; 0x26; 0x06];
        [0x20; 0x00; 0x28; 0x08];
        []].
Proof.
  split; [|split; [reflexivity|split; [|split]]].
  - intros m. unfold LCD.LCD_init.
    rewrite !events_bind, !calls_app.
    repeat match goal with
           | |- context [calls (events (LCD.LCD_command ?c) ?x)] =>
               rewrite (proj1 (LCD_command_calls c x))
           end.
    rewrite ?final_bind.
    repeat first
      [ rewrite final_delayMs
      | match goal with
        | |- context [Z.land (pp2 (final (LCD.LCD_command ?c) ?x)) 0x50] =>
            rewrite (proj2 (LCD_command_calls c x))
        end ].
    reflexivity.
  - intros h. split; reflexivity.
  - intros m. unfold LCD.LCD_init. do 4 eexists.
    rewrite !events_bind. cbn [events delayMs emit snd app].
    rewrite !final_delayMs. reflexivity.
  - vm_compute. reflexivity.
Qed.

(** C6 (what the code does).  [LCD_command] clears RS, bit 7, in every
    byte it shifts out, but its mask [~(3 << 7)] does not reach RW,
    bit 6, which stays as [PP2] had it on entry.  Entered with RW set
    ([PP2] = 0x40), the command 0x00 shifts out 0x60, 0x40, 0x60 and
    0x40: all four bytes have RW = 1. *)
Theorem LCD_command_leaves_RW :
  (forall c m,
      Forall (fun b => RS b = false /\ RW b = RW (pp2 m))
             (shifted_bytes (events (LCD.LCD_command c) m)))
  /\ Z.lnot (Z.shiftl 3 7) = Z.lnot 0x180
  /\ pp2 rw_set = 0x40
  /\ shifted_bytes (events (LCD.LCD_command 0x00) rw_set)
     = [0x60; 0x40; 0x60; 0x40]
  /\ map RW (shifted_bytes (events (LCD.LCD_command 0x00) rw_set))
     = [true; true; true; true]
  /\ map RS (shifted_bytes (events (LCD.LCD_command 0x00) rw_set))
     = [false; false; false; false].
Proof.
  split; [|repeat split; vm_compute; reflexivity].
  intros c m. rewrite LCD_command_events, shifted_bytes_byte_trace.
  unfold byte_shifts, second_steps, first_steps.
  destruct (command_steps_bits (pp2 m) (high_nibble (LCD.remap c))
              (high_nibble_range _))
    as (_ & _ & _ & (A1 & A2) & (_ & _ & R3 & R4)).
  destruct (command_steps_bits
              (released (command_steps (pp2 m) (high_nibble (LCD.remap c))))
              (low_nibble (LCD.remap c)) (low_nibble_range _))
    as (_ & _ & _ & (B1 & B2) & (_ & _ & S3 & S4)).
  cbv zeta in *. rewrite R4 in S3, S4.
  repeat constructor; assumption.
Qed.

(** C9.  RW, bit 6 of [PP2], is 0 throughout the LCD program.  [PP2]
    starts as 0; [shift_out1] does not store into it; [LCD_putc] shifts
    out bytes with RW = 0 only and leaves RW = 0, whatever [PP2] was;
    [LCD_command] stores and shifts out only values whose RW is the RW
    it found.  So from any state in which [PP2] is 0 every value [PP2]
    takes during [main], every byte [main] shifts out and the final
    [PP2] have RW = 0. *)
Theorem RW_always_clear :
  pp2 power_on = 0x00
  /\ (forall b m,
        pp2_stores (events (LCD.shift_out1 b) m) = []
        /\ pp2 (final (LCD.shift_out1 b) m) = pp2 m)
  /\ (forall c m,
        Forall (fun b => RW b = false)
               (shifted_bytes (events (LCD.LCD_putc c) m))
        /\ RW (pp2 (final (LCD.LCD_putc c) m)) = false)
  /\ (forall c m,
        Forall (rw_is (RW (pp2 m))) (events (LCD.LCD_command c) m)
        /\ RW (pp2 (final (LCD.LCD_command c) m)) = RW (pp2 m))
  /\ (forall r pc pe pf,
        Forall (fun v => RW v = false)
               (pp2_history 0x00
                  (events LCD.main (mkMachine 0x00 r pc pe pf)))
        /\ Forall (fun b => RW b = false)
                  (shifted_bytes
                     (events LCD.main (mkMachine 0x00 r pc pe pf)))
        /\ RW (pp2 (final LCD.main (mkMachine 0x00 r pc pe pf))) = false).
Proof.
  split; [reflexivity|]. split; [|split; [|split]].
  - intros b m. rewrite LCD_shift_out1_events, LCD_shift_out1_final.
    split; [apply pp2_stores_shift_trace|].
    destruct m as [p r [] [] []]. reflexivity.
  - intros c m. destruct (LCD_putc_rw c m) as (H1 & H2 & _). now split.
  - intros c m. apply LCD_command_rw.
  - intros r pc pe pf.
    destruct (keeps_LCD_main (mkMachine 0x00 r pc pe pf) eq_refl)
      as [Ht Hf].
    destruct (rw_clear_values _ Ht) as [H1 H2].
    split; [|split; assumption].
    unfold pp2_history. constructor; [reflexivity | exact H1].
Qed.

(** * Further properties of the code *)

Lemma bind_assoc {A B C} (c : M A) (k : A -> M B) (h : B -> M C) m :
  bind (bind c k) h m = bind c (fun a => bind (k a) h) m.
Proof.
  unfold bind. destruct (c m) as [[a m1] t1].
  destruct (k a m1) as [[b m2] t2]. destruct (h b m2) as [[x m3] t3].
  now rewrite app_assoc.
Qed.

Lemma bind_ext {A B} (c : M A) (k k' : A -> M B) m :
  (forall a m', k a m' = k' a m') -> bind c k m = bind c k' m.
Proof.
  intros H. unfold bind. destruct (c m) as [[a m1] t1]. now rewrite H.
Qed.

Lemma bind_ret_l {B} (k : unit -> M B) m : bind (ret tt) k m = k tt m.
Proof. unfold bind, ret. now destruct (k tt m) as [[b m2] t2]. Qed.

(** X1.  [LCD_puts] sends, in order, the characters that precede the
    first NUL of its string, each as the four bytes of [LCD_putc], and
    makes no other call: four calls of [shift_out1] for each such
    character and no delay. *)
Theorem LCD_puts_sends_text (s : string) (m : machine) :
  calls (events (LCD.LCD_puts s) m)
    = flat_map (fun c => map Shift (data_bytes (Z.land (pp2 m) 0x10) c))
               (sent_chars s)
  /\ List.length (shifted_bytes (events (LCD.LCD_puts s) m))
     = (4 * List.length (sent_chars s))%nat.
Proof.
  revert m. induction s as [|c s IH]; intros m; cbn [LCD.LCD_puts sent_chars].
  - split; reflexivity.
  - destruct (LCD.char_code c =? 0); [split; reflexivity|].
    rewrite events_bind, calls_app, shifted_bytes_app, length_app.
    destruct (LCD_putc_calls (LCD.char_code c) m) as [Hc Hh].
    destruct (IH (final (LCD.LCD_putc (LCD.char_code c)) m)) as [IH1 IH2].
    rewrite Hc, IH1, IH2, Hh. cbn [flat_map]. split; [reflexivity|].
    rewrite LCD_putc_events, shifted_bytes_byte_trace.
    cbn [byte_shifts List.length]. lia.
Qed.

(** X2.  [LCD_puts] stops at the first NUL: what follows it in memory is
    never read or sent, and a string that is empty or begins with NUL
    leaves the machine as it is and emits nothing. *)
Theorem LCD_puts_stops_at_nul (s1 s2 : string) (m : machine) :
  LCD.LCD_puts (s1 ++ String zero s2) m = LCD.LCD_puts s1 m
  /\ LCD.LCD_puts (String zero s2) m = (tt, m, [])
  /\ LCD.LCD_puts EmptyString m = (tt, m, []).
Proof.
  split; [|split; reflexivity].
  revert m. induction s1 as [|c s1 IH]; intros m; [reflexivity|].
  cbn [String.append LCD.LCD_puts].
  destruct (LCD.char_code c =? 0); [reflexivity|].
  apply bind_ext. intros _ m'. apply IH.
Qed.

(** X3.  Sending a string without NUL and then a second string is the
    same as sending their concatenation. *)
Theorem LCD_puts_append (s1 s2 : string) (m : machine) :
  has_nul s1 = false ->
  LCD.LCD_puts (s1 ++ s2) m = (LCD.LCD_puts s1 ;; LCD.LCD_puts s2) m.
Proof.
  revert m. induction s1 as [|c s1 IH]; intros m Hn.
  - cbn [String.append LCD.LCD_puts]. now rewrite bind_ret_l.
  - cbn [has_nul] in Hn. apply orb_false_elim in Hn. destruct Hn as [Hc Hn].
    cbn [String.append LCD.LCD_puts]. rewrite Hc, bind_assoc.
    apply bind_ext. intros _ m'. now apply IH.
Qed.

Lemma LCD_puts_append_witness :
  has_nul "AB" = false
  /\ LCD.LCD_puts "ABC" power_on
     = (LCD.LCD_puts "AB" ;; LCD.LCD_puts "C") power_on.
Proof.
  split; [reflexivity|].
  exact (LCD_puts_append "AB" "C" power_on eq_refl).
Defined.

Lemma LCD_putc_shifted c m :
  shifted_bytes (events (LCD.LCD_putc c) m)
  = byte_shifts data_steps (pp2 m) c.
Proof. now rewrite LCD_putc_events, shifted_bytes_byte_trace. Qed.

Lemma LCD_command_shifted c m :
  shifted_bytes (events (LCD.LCD_command c) m)
  = byte_shifts command_steps (pp2 m) c.
Proof. now rewrite LCD_command_events, shifted_bytes_byte_trace. Qed.

Lemma byte_shifts_RS_data p c :
  map RS (byte_shifts data_steps p c) = [true; true; true; true].
Proof.
  unfold byte_shifts, second_steps, first_steps.
  destruct (data_steps_bits p _ (high_nibble_range (LCD.remap c)))
    as (_ & _ & _ & (A1 & A2) & _).
  destruct (data_steps_bits
              (released (data_steps p (high_nibble (LCD.remap c)))) _
              (low_nibble_range (LCD.remap c)))
    as (_ & _ & _ & (B1 & B2) & _).
  cbv zeta in *. cbn [map]. now rewrite A1, A2, B1, B2.
Qed.

Lemma byte_shifts_RS_command p c :
  map RS (byte_shifts command_steps p c) = [false; false; false; false].
Proof.
  unfold byte_shifts, second_steps, first_steps.
  destruct (command_steps_bits p _ (high_nibble_range (LCD.remap c)))
    as (_ & _ & _ & (A1 & A2) & _).
  destruct (command_steps_bits
              (released (command_steps p (high_nibble (LCD.remap c)))) _
              (low_nibble_range (LCD.remap c)))
    as (_ & _ & _ & (B1 & B2) & _).
  cbv zeta in *. cbn [map]. now rewrite A1, A2, B1, B2.
Qed.

(** X4.  The register-select bit follows the kind of byte sent, whatever
    was sent before: every byte [LCD_putc] shifts out has RS = 1, also
    from a state with RS clear, and a character followed by a command,
    or a command followed by a character, shifts out four bytes of the
    first kind and then four of the second. *)
Theorem RS_follows_the_call (c1 c2 : Z) (m : machine) :
  map RS (shifted_bytes (events (LCD.LCD_putc c1) m))
    = [true; true; true; true]
  /\ map RS (shifted_bytes
               (events (LCD.LCD_putc c1 ;; LCD.LCD_command c2) m))
     = [true; true; true; true; false; false; false; false]
  /\ map RS (shifted_bytes
               (events (LCD.LCD_command c1 ;; LCD.LCD_putc c2) m))
     = [false; false; false; false; true; true; true; true].
Proof.
  rewrite !events_bind, !shifted_bytes_app, !map_app.
  rewrite !LCD_putc_shifted, !LCD_command_shifted.
  rewrite !byte_shifts_RS_data, !byte_shifts_RS_command.
  repeat split; reflexivity.
Qed.








(** *** What the drivers leave alone *)

Lemma read_write_other l l' v m : l <> l' -> read l (write l' v m) = read l m.
Proof.
  destruct l as [| |[] []], l' as [| |[] []]; intros H;
    try reflexivity; now destruct H.
Qed.

Section Untouched.

Variables (l : loc) (v : Z).

Let holds (m : machine) : Prop := read l m = v.
Let anything (t : list event) : Prop := True.
Let keeps {A} (c : M A) : Prop := preserves holds anything c.

Lemma untouched_bind {A B} (c : M A) (k : A -> M B) :
  keeps c -> (forall a, keeps (k a)) -> keeps (bind c k).
Proof. apply preserves_bind. intros; exact I. Qed.

Lemma untouched_ret {A} (a : A) : keeps (ret a).
Proof. apply preserves_ret. exact I. Qed.

Lemma untouched_load l' : keeps (load l').
Proof. intros m Hm. split; [exact I | exact Hm]. Qed.

Lemma untouched_emit e : keeps (emit e).
Proof. intros m Hm. split; [exact I | exact Hm]. Qed.

Lemma untouched_store l' x : l <> l' -> keeps (store l' x).
Proof.
  intros Hl m Hm. split; [exact I|]. unfold holds, final, store.
  cbn [fst snd]. now rewrite read_write_other.
Qed.

Lemma untouched_or_assign l' x : l <> l' -> keeps (or_assign l' x).
Proof.
  intros Hl. apply untouched_bind; [apply untouched_load|].
  intros a. now apply untouched_store.
Qed.

Lemma untouched_and_assign l' x : l <> l' -> keeps (and_assign l' x).
Proof.
  intros Hl. apply untouched_bind; [apply untouched_load|].
  intros a. now apply untouched_store.
Qed.

Lemma untouched_for_loop body n :
  (forall j, keeps (body j)) -> forall j, keeps (for_loop n j body).
Proof.
  intros Hb. induction n as [|n IH]; intros j; cbn [for_loop].
  - apply untouched_ret.
  - apply untouched_bind; [apply Hb | intros _; apply IH].
Qed.

End Untouched.

Ltac untouched_step :=
  lazymatch goal with
  | |- preserves _ _ (bind _ _) => apply untouched_bind; [|intros ?]
  | |- preserves _ _ (ret _) => apply untouched_ret
  | |- preserves _ _ (load _) => apply untouched_load
  | |- preserves _ _ (emit _) => apply untouched_emit
  | |- preserves _ _ (delayMs _) => apply untouched_emit
  | |- preserves _ _ (store _ _) => apply untouched_store; assumption
  | |- preserves _ _ (or_assign _ _) => apply untouched_or_assign; assumption
  | |- preserves _ _ (and_assign _ _) =>
      apply untouched_and_assign; assumption
  | |- preserves _ _ (for_loop _ _ _) => apply untouched_for_loop; intros ?
  | |- preserves _ _ (if _ then _ else _) =>
      match goal with |- context [if ?b then _ else _] => destruct b end
  end.

Lemma untouched_LCD_shift_out1 l v b :
  l <> GPIO_PORTE_DATA_R -> l <> GPIO_PORTF_DATA_R ->
  preserves (fun m => read l m = v) (fun _ => True) (LCD.shift_out1 b).
Proof.
  intros HE HF. unfold LCD.shift_out1, LCD.shift_bit. cbv zeta.
  repeat untouched_step.
Qed.

Lemma untouched_SevenSeg_shift_out1 l v b :
  l <> GPIO_PORTC_DATA_R -> l <> GPIO_PORTF_DATA_R ->
  preserves (fun m => read l m = v) (fun _ => True) (SevenSeg.shift_out1 b).
Proof.
  intros HC HF. unfold SevenSeg.shift_out1, SevenSeg.shift_bit. cbv zeta.
  repeat untouched_step.
Qed.

Lemma untouched_LCD_command l v c :
  l <> PP2 -> l <> GPIO_PORTE_DATA_R -> l <> GPIO_PORTF_DATA_R ->
  preserves (fun m => read l m = v) (fun _ => True) (LCD.LCD_command c).
Proof.
  intros HP HE HF. unfold LCD.LCD_command. cbv zeta.
  repeat lazymatch goal with
         | |- preserves _ _ (LCD.shift_out1 _) =>
             apply untouched_LCD_shift_out1; assumption
         | |- _ => untouched_step
         end.
Qed.

Lemma untouched_LCD_putc l v c :
  l <> PP2 -> l <> GPIO_PORTE_DATA_R -> l <> GPIO_PORTF_DATA_R ->
  preserves (fun m => read l m = v) (fun _ => True) (LCD.LCD_putc c).
Proof.
  intros HP HE HF. unfold LCD.LCD_putc. cbv zeta.
  repeat lazymatch goal with
         | |- preserves _ _ (LCD.shift_out1 _) =>
             apply untouched_LCD_shift_out1; assumption
         | |- _ => untouched_step
         end.
Qed.

Lemma untouched_LCD_puts l v s :
  l <> PP2 -> l <> GPIO_PORTE_DATA_R -> l <> GPIO_PORTF_DATA_R ->
  preserves (fun m => read l m = v) (fun _ => True) (LCD.LCD_puts s).
Proof.
  intros HP HE HF. induction s as [|c s IH]; cbn [LCD.LCD_puts].
  - apply untouched_ret.
  - destruct (LCD.char_code c =? 0); [apply untouched_ret|].
    apply untouched_bind; [now apply untouched_LCD_putc | intros _; exact IH].
Qed.

Lemma untouched_LCD_init l v :
  l <> PP2 -> l <> GPIO_PORTE_DATA_R -> l <> GPIO_PORTF_DATA_R ->
  preserves (fun m => read l m = v) (fun _ => True) LCD.LCD_init.
Proof.
  intros HP HE HF. unfold LCD.LCD_init.
  repeat lazymatch goal with
         | |- preserves _ _ (LCD.LCD_command _) =>
             apply untouched_LCD_command; assumption
         | |- _ => untouched_step
         end.
Qed.

Lemma untouched_SevenSeg_loop l v n :
  l <> GPIO_PORTC_DATA_R -> l <> GPIO_PORTF_DATA_R ->
  preserves (fun m => read l m = v) (fun _ => True) (SevenSeg.loop n).
Proof.
  intros HC HF. induction n as [|n IH]; cbn [SevenSeg.loop].
  - apply untouched_ret.
  - apply untouched_bind; [|intros _; exact IH].
    unfold SevenSeg.loop_body, SevenSeg.show_digits, SevenSeg.clear_digits.
    repeat lazymatch goal with
           | |- preserves _ _ (SevenSeg.shift_out1 _) =>
               apply untouched_SevenSeg_shift_out1; assumption
           | |- _ => untouched_step
           end.
Qed.

(** X6.  The LCD driver changes nothing but [PP2] and the data registers
    of ports E and F: every other location (clock gating, direction and
    digital-enable registers, port C) holds after [shift_out1],
    [LCD_command], [LCD_putc], [LCD_puts] and [LCD_init] what it held
    before. *)
Theorem LCD_driver_frame (l : loc) (m : machine) :
  l <> PP2 -> l <> GPIO_PORTE_DATA_R -> l <> GPIO_PORTF_DATA_R ->
  (forall b, read l (final (LCD.shift_out1 b) m) = read l m)
  /\ (forall c, read l (final (LCD.LCD_command c) m) = read l m)
  /\ (forall c, read l (final (LCD.LCD_putc c) m) = read l m)
  /\ (forall s, read l (final (LCD.LCD_puts s) m) = read l m)
  /\ read l (final LCD.LCD_init m) = read l m.
Proof.
  intros HP HE HF. repeat split; intros.
  - now apply (untouched_LCD_shift_out1 l (read l m) b HE HF m).
  - now apply (untouched_LCD_command l (read l m) c HP HE HF m).
  - now apply (untouched_LCD_putc l (read l m) c HP HE HF m).
  - now apply (untouched_LCD_puts l (read l m) s HP HE HF m).
  - now apply (untouched_LCD_init l (read l m) HP HE HF m).
Qed.

Lemma LCD_driver_frame_witness :
  read GPIO_PORTF_DIR_R (final LCD.LCD_init power_on)
  = read GPIO_PORTF_DIR_R power_on.
Proof.
  apply (LCD_driver_frame GPIO_PORTF_DIR_R power_on); discriminate.
Defined.

(** X7.  [shift_out1] of the 7-segment program, and any number of turns
    of its loop, change nothing but the data registers of ports C and
    F. *)
Theorem SevenSeg_frame (l : loc) (m : machine) :
  l <> GPIO_PORTC_DATA_R -> l <> GPIO_PORTF_DATA_R ->
  (forall b, read l (final (SevenSeg.shift_out1 b) m) = read l m)
  /\ (forall turns, read l (final (SevenSeg.loop turns) m) = read l m).
Proof.
  intros HC HF. split; intros.
  - now apply (untouched_SevenSeg_shift_out1 l (read l m) b HC HF m).
  - now apply (untouched_SevenSeg_loop l (read l m) turns HC HF m).
Qed.

Lemma SevenSeg_frame_witness :
  read GPIO_PORTC_DIR_R (final (SevenSeg.loop 2) power_on)
  = read GPIO_PORTC_DIR_R power_on.
Proof.
  apply (SevenSeg_frame GPIO_PORTC_DIR_R power_on); discriminate.
Defined.

(** *** Only configured pins are driven *)

Lemma land_lnot_trans v p d :
  Z.land v (Z.lnot p) = 0 -> Z.land p (Z.lnot d) = 0 ->
  Z.land v (Z.lnot d) = 0.
Proof.
  intros Hv Hp. apply Z.bits_inj'. intros n Hn.
  assert (Bv := f_equal (fun x => Z.testbit x n) Hv).
  assert (Bp := f_equal (fun x => Z.testbit x n) Hp).
  cbv beta in Bv, Bp.
  rewrite Z.land_spec, Z.lnot_spec, Z.bits_0 in * by exact Hn.
  destruct (Z.testbit v n), (Z.testbit p n), (Z.testbit d n);
    try reflexivity; discriminate.
Qed.

Lemma set_bits_configured k a b :
  0 <= k < 4294967296 ->
  Z.land k (Z.lnot (Z.land (to_uint32 (Z.lor a k)) (to_uint32 (Z.lor b k))))
  = 0.
Proof.
  intros Hk. apply Z.bits_inj'. intros n Hn.
  rewrite Z.bits_0, Z.land_spec, Z.lnot_spec, Z.land_spec by exact Hn.
  unfold to_uint32. change 4294967296 with (2 ^ 32).
  rewrite !Z.testbit_mod_pow2, !Z.lor_spec by lia.
  destruct (Z.ltb_spec n 32) as [Hlt|Hge].
  - destruct (Z.testbit k n); [now rewrite !orb_true_r | reflexivity].
  - replace (Z.testbit k n) with false; [reflexivity|].
    symmetry. rewrite <- (Z.mod_small k (2 ^ 32)) by exact Hk.
    rewrite Z.testbit_mod_pow2 by lia.
    destruct (Z.ltb_spec n 32); [lia | reflexivity].
Qed.

Section Pins.

Variables (latch : port) (mask : Z).
Hypothesis latch_ok : is_latch latch mask.

Let safe {A} (c : M A) : Prop :=
  preserves any_state (Forall (within_pins latch mask)) c.

Lemma safe_bind {A B} (c : M A) (k : A -> M B) :
  safe c -> (forall a, safe (k a)) -> safe (bind c k).
Proof.
  apply preserves_bind. intros t1 t2 H1 H2. apply Forall_app. now split.
Qed.

Lemma safe_ret {A} (a : A) : safe (ret a).
Proof. apply preserves_ret. constructor. Qed.

Lemma safe_load l : safe (load l).
Proof. intros m _. split; [constructor | exact I]. Qed.

Lemma safe_delayMs n : safe (delayMs n).
Proof. intros m _. split; [repeat constructor | exact I]. Qed.

Lemma safe_store_PP2 v : safe (store PP2 v).
Proof. intros m _. split; [repeat constructor | exact I]. Qed.

Lemma safe_or_assign_PP2 v : safe (or_assign PP2 v).
Proof.
  apply safe_bind; [apply safe_load | intros x; apply safe_store_PP2].
Qed.

Lemma safe_and_assign_PP2 v : safe (and_assign PP2 v).
Proof.
  apply safe_bind; [apply safe_load | intros x; apply safe_store_PP2].
Qed.

Lemma within_pins_shift_trace b :
  Forall (within_pins latch mask) (shift_trace latch mask b).
Proof.
  unfold shift_trace.
  constructor; [exact I|]. constructor; [reflexivity|].
  apply Forall_app. split.
  - apply Forall_flat_map, Forall_forall. intros d _.
    destruct latch_ok as [[-> ->]|[-> ->]]; destruct d;
      repeat constructor.
  - constructor; [|constructor].
    destruct latch_ok as [[-> ->]|[-> ->]]; reflexivity.
Qed.

(** A machine with its pins configured replays, without fault, events
    that stay within the driven pins. *)
Lemma within_pins_driven t : forall m,
  configured latch mask m ->
  Forall (within_pins latch mask) t ->
  only_outputs_driven m t.
Proof.
  induction t as [|e t IH]; intros m Hm Ht; [exact I|].
  inversion Ht as [|? ? He Ht']; subst.
  destruct e as [[| |p []] v|b|n]; cbn [only_outputs_driven within_pins] in *;
    try (now destruct He).
  - apply IH; [|exact Ht']. intros q. specialize (Hm q).
    now destruct q, m as [? ? [] [] []].
  - apply IH; [|exact Ht']. intros q. specialize (Hm q).
    now destruct q, m as [? ? [] [] []].
  - split.
    + exact (land_lnot_trans _ _ _ He (Hm p)).
    + apply IH; [|exact Ht']. intros q. specialize (Hm q).
      now destruct p, q, m as [? ? [] [] []].
  - now apply IH.
  - now apply IH.
Qed.

End Pins.

Lemma safe_LCD_shift_out1 b :
  preserves any_state (Forall (within_pins PORTE 0x20)) (LCD.shift_out1 b).
Proof.
  intros m _. rewrite LCD_shift_out1_events.
  split; [apply within_pins_shift_trace, LCD_is_latch | exact I].
Qed.

Lemma safe_SevenSeg_shift_out1 b :
  preserves any_state (Forall (within_pins PORTC 0x10))
            (SevenSeg.shift_out1 b).
Proof.
  intros m _. rewrite SevenSeg_shift_out1_events.
  split; [apply within_pins_shift_trace, SevenSeg_is_latch | exact I].
Qed.

Ltac safe_step known :=
  lazymatch goal with
  | |- preserves _ _ (bind _ _) => apply safe_bind; [|intros ?]
  | |- preserves _ _ (ret _) => apply safe_ret
  | |- preserves _ _ (load _) => apply safe_load
  | |- preserves _ _ (delayMs _) => apply safe_delayMs
  | |- preserves _ _ (store PP2 _) => apply safe_store_PP2
  | |- preserves _ _ (or_assign PP2 _) => apply safe_or_assign_PP2
  | |- preserves _ _ (and_assign PP2 _) => apply safe_and_assign_PP2
  | |- preserves _ _ (LCD.shift_out1 _) => apply safe_LCD_shift_out1
  | |- preserves _ _ (SevenSeg.shift_out1 _) =>
      apply safe_SevenSeg_shift_out1
  | |- _ => known
  end.

Lemma safe_LCD_command c :
  preserves any_state (Forall (within_pins PORTE 0x20)) (LCD.LCD_command c).
Proof. unfold LCD.LCD_command. cbv zeta. repeat safe_step fail. Qed.

Lemma safe_LCD_putc c :
  preserves any_state (Forall (within_pins PORTE 0x20)) (LCD.LCD_putc c).
Proof. unfold LCD.LCD_putc. cbv zeta. repeat safe_step fail. Qed.

Lemma safe_LCD_puts s :
  preserves any_state (Forall (within_pins PORTE 0x20)) (LCD.LCD_puts s).
Proof.
  induction s as [|c s IH]; cbn [LCD.LCD_puts]; [apply safe_ret|].
  destruct (LCD.char_code c =? 0); [apply safe_ret|].
  apply safe_bind; [apply safe_LCD_putc | intros _; exact IH].
Qed.

Lemma safe_LCD_init :
  preserves any_state (Forall (within_pins PORTE 0x20)) LCD.LCD_init.
Proof.
  unfold LCD.LCD_init. repeat safe_step ltac:(apply safe_LCD_command).
Qed.

Lemma safe_SevenSeg_loop n :
  preserves any_state (Forall (within_pins PORTC 0x10)) (SevenSeg.loop n).
Proof.
  induction n as [|n IH]; cbn [SevenSeg.loop]; [apply safe_ret|].
  apply safe_bind; [|intros _; exact IH].
  unfold SevenSeg.loop_body, SevenSeg.show_digits, SevenSeg.clear_digits.
  repeat safe_step fail.
Qed.

Lemma events_or_assign_bind {B} l v (k : unit -> M B) m :
  events (bind (or_assign l v) k) m
  = Store l (wrap l (Z.lor (read l m) v))
    :: events (k tt) (write l (wrap l (Z.lor (read l m) v)) m).
Proof.
  unfold events, or_assign, bind, load, store.
  now destruct (k tt _) as [[b m2] t2].
Qed.

Ltac reads :=
  cbv beta iota delta
    [configured driven_pins port_eqb read write wrap port_get port_set
     gpio_get gpio_set pp2 rcgcgpio portc porte portf dir den data
     SDATA SCLK].

(** X8.  Both programs configure their pins before they use them.
    Replaying the events of [main] on the state [main] started from,
    whatever that state, every store into a data register sets only
    bits of pins that are, at the time of the store, outputs with their
    digital function enabled: PE5, PF2 and PF3 in the LCD program, PC4,
    PF2 and PF3 in the 7-segment program, for any number of turns of
    its loop.  Without that configuration the property fails: from the
    reset state a bare call of [shift_out1] raises the clock and latch
    pins while they are still inputs. *)
Theorem mains_drive_configured_pins :
  (forall m, only_outputs_driven m (events LCD.main m))
  /\ (forall turns m, only_outputs_driven m (events (SevenSeg.main turns) m))
  /\ ~ only_outputs_driven power_on (events (LCD.shift_out1 0x00) power_on).
Proof.
  split; [|split].
  3: { rewrite LCD_shift_out1_events. intros H.
       vm_compute in H. destruct H as (_ & _ & _ & H & _).
       discriminate H. }
  - intros m. unfold LCD.main.
    do 5 (rewrite events_or_assign_bind; cbn [only_outputs_driven]).
    apply (within_pins_driven PORTE 0x20).
    + intros p. destruct m as [? ? [] [] []]. destruct p; reads.
      * reflexivity.
      * apply set_bits_configured. lia.
      * apply set_bits_configured. lia.
    + match goal with |- Forall _ (events ?c ?x) =>
        assert (H : preserves any_state (Forall (within_pins PORTE 0x20)) c)
      end.
      { unfold LCD.LCD_row1, LCD.LCD_row2.
        repeat safe_step
          ltac:(first [ exact safe_LCD_init
                      | apply safe_LCD_puts
                      | apply safe_LCD_command ]). }
      apply H. exact I.
  - intros turns m. unfold SevenSeg.main.
    do 5 (rewrite events_or_assign_bind; cbn [only_outputs_driven]).
    apply (within_pins_driven PORTC 0x10).
    + intros p. destruct m as [? ? [] [] []]. destruct p; reads.
      * apply set_bits_configured. lia.
      * reflexivity.
      * apply set_bits_configured. lia.
    + apply safe_SevenSeg_loop. exact I.
Qed.

(** *** The 7-segment loop *)

Lemma final_ret {A} (a : A) m : final (ret a) m = m.
Proof. reflexivity. Qed.

Lemma SevenSeg_loop_S n :
  SevenSeg.loop (S n) = (SevenSeg.loop_body ;; SevenSeg.loop n).
Proof. reflexivity. Qed.

Lemma SevenSeg_loop_body_calls m :
  calls (events SevenSeg.loop_body m) = turn_calls.
Proof.
  unfold SevenSeg.loop_body, SevenSeg.show_digits, SevenSeg.clear_digits.
  rewrite !events_bind, !calls_app.
  rewrite !SevenSeg_shift_out1_events, !calls_shift_trace.
  reflexivity.
Qed.

Lemma SevenSeg_loop_body_final m :
  read GPIO_PORTC_DATA_R (final SevenSeg.loop_body m) = 0x10
  /\ read GPIO_PORTF_DATA_R (final SevenSeg.loop_body m) = SCLK.
Proof.
  unfold SevenSeg.loop_body, SevenSeg.show_digits, SevenSeg.clear_digits.
  rewrite !final_bind. cbv beta. rewrite final_delayMs.
  rewrite SevenSeg_shift_out1_final.
  match goal with |- context [shift_final _ _ _ ?x] => generalize x end.
  intros [? ? [] [] []]. split; reflexivity.
Qed.

(** X9.  The 7-segment loop is periodic and does not depend on the
    state it starts from: [turns] turns make [turns] times the same
    twelve calls (the patterns of digits 4, 3, 2, 1 and 8, a delay of
    500 ms, five times the blank pattern, a delay of 500 ms), which is
    ten transfers and ten latch pulses a turn; after any positive
    number of turns the latch is left high, the clock high and the data
    line low. *)
Theorem SevenSeg_loop_periodic (turns : nat) (m : machine) :
  calls (events (SevenSeg.loop turns) m) = List.concat (repeat turn_calls turns)
  /\ List.length (shifted_bytes (events (SevenSeg.loop turns) m))
     = (10 * turns)%nat
  /\ (forall ck l,
        latch_rises
          (edges PORTC 0x10 (events (SevenSeg.loop turns) m) (mkLines ck l 0))
        = (10 * turns)%nat)
  /\ read GPIO_PORTC_DATA_R (final (SevenSeg.loop (S turns)) m) = 0x10
  /\ read GPIO_PORTF_DATA_R (final (SevenSeg.loop (S turns)) m) = SCLK.
Proof.
  assert (Hcalls : forall n x,
    calls (events (SevenSeg.loop n) x) = List.concat (repeat turn_calls n)).
  { induction n as [|n IH]; intros x; [reflexivity|].
    cbn [SevenSeg.loop repeat List.concat].
    now rewrite events_bind, calls_app, SevenSeg_loop_body_calls, IH. }
  assert (Hlen : forall t, List.length (shifted_bytes t)
                           = List.length (filter (fun c => match c with
                                                           | Shift _ => true
                                                           | Wait _ => false
                                                           end) (calls t))).
  { induction t as [|[l v|b|n] t IH]; cbn [shifted_bytes calls filter];
      [reflexivity | exact IH | cbn [List.length]; now rewrite IH | exact IH]. }
  assert (Hten : List.length (shifted_bytes (events (SevenSeg.loop turns) m))
                 = (10 * turns)%nat).
  { rewrite Hlen, Hcalls. clear. induction turns as [|n IH]; [reflexivity|].
    cbn [repeat List.concat]. rewrite filter_app, length_app, IH.
    cbn [turn_calls filter List.length]. lia. }
  assert (Hfinal : forall n x,
    read GPIO_PORTC_DATA_R (final (SevenSeg.loop (S n)) x) = 0x10
    /\ read GPIO_PORTF_DATA_R (final (SevenSeg.loop (S n)) x) = SCLK).
  { induction n as [|n IH]; intros x.
    - cbn [SevenSeg.loop]. rewrite final_bind. cbv beta.
      rewrite !final_ret. apply SevenSeg_loop_body_final.
    - rewrite (SevenSeg_loop_S (S n)), final_bind. apply IH. }
  split; [apply Hcalls|]. split; [exact Hten|]. split; [|apply Hfinal].
  intros ck l.
  destruct (SevenSeg_loop_framing turns m I) as [Hf _].
  destruct (framed_watch _ _ _ SevenSeg_is_latch Hf (mkLines ck l 0) eq_refl)
    as (_ & _ & ->).
  exact Hten.
Qed.

(** *** The keypad decoder *)

Lemma forall_range2 (P : Z -> Z -> bool) j n :
  forallb (fun a => forallb (P a) (zrange j n)) (zrange j n) = true ->
  forall a b, j <= a < j + Z.of_nat n -> j <= b < j + Z.of_nat n ->
  P a b = true.
Proof.
  intros H a b Ha Hb.
  apply (forall_range (P a) j n); [|exact Hb].
  exact (forall_range (fun a => forallb (P a) (zrange j n)) j n H a Ha).
Qed.

Lemma key_scan_low_bits v :
  Keypad.key_scan v = Keypad.key_scan (16 * (v / 16)).
Proof.
  unfold Keypad.key_scan.
  replace (Z.shiftr (16 * (v / 16)) 4) with (Z.shiftr v 4); [reflexivity|].
  rewrite !Z.shiftr_div_pow2 by lia. change (2 ^ 4) with 16.
  rewrite (Z.mul_comm 16), Z.div_mul by lia. reflexivity.
Qed.

Lemma key_scan_code v :
  0 <= v < 4294967296 ->
  to_uint32 (Z.shiftr v 4) = v / 16 /\ 0 <= v / 16 < 268435456.
Proof.
  intros Hv. rewrite Z.shiftr_div_pow2 by lia. change (2 ^ 4) with 16.
  assert (H : 0 <= v / 16 < 268435456).
  { split; [apply Z.div_pos; lia | apply Z.div_lt_upper_bound; lia]. }
  split; [|exact H]. unfold to_uint32. apply Z.mod_small. lia.
Qed.

Lemma key_scan_above v :
  0 <= v < 4294967296 -> 0xB80 <= v -> Keypad.key_scan v = Keypad.chr "G".
Proof.
  intros Hv Hhi. destruct (key_scan_code v Hv) as [Hc _].
  assert (Hq : 0xB8 <= v / 16) by (apply Z.div_le_lower_bound; lia).
  unfold Keypad.key_scan. cbv zeta. rewrite Hc.
  repeat match goal with
         | |- context [v / 16 =? ?k] =>
             replace (v / 16 =? k) with false
               by (symmetry; apply Z.eqb_neq; lia)
         end.
  reflexivity.
Qed.

(** X10.  [key_scan] always answers with the code of one of the
    characters 0 to 9 and A to G.  It looks at the conversion result
    without its four low bits only; every result of 0xB80 or more,
    above the window of key 0, is answered with G, "undefined", and
    every result below 16 with F. *)
Theorem key_scan_edges (v : Z) :
  0 <= v < 4294967296 ->
  ((Keypad.chr "0" <= Keypad.key_scan v <= Keypad.chr "9")
   \/ (Keypad.chr "A" <= Keypad.key_scan v <= Keypad.chr "G"))
  /\ Keypad.key_scan v = Keypad.key_scan (16 * (v / 16))
  /\ (0xB80 <= v -> Keypad.key_scan v = Keypad.chr "G")
  /\ (v < 16 -> Keypad.key_scan v = Keypad.chr "F").
Proof.
  intros Hv. split; [|split; [apply key_scan_low_bits|split]].
  - unfold Keypad.key_scan. cbv zeta.
    repeat match goal with
           | |- context [if ?b then _ else _] => destruct b
           end;
      vm_compute; intuition congruence.
  - now apply key_scan_above.
  - intros Hlo. destruct (key_scan_code v Hv) as [Hc _].
    unfold Keypad.key_scan. cbv zeta. rewrite Hc.
    replace (v / 16) with 0; [reflexivity|].
    symmetry. apply Z.div_small. lia.
Qed.

Lemma key_scan_edges_witness :
  0 <= 0xB75 < 4294967296
  /\ Keypad.key_scan 0xB75 = Keypad.chr "0"
  /\ Keypad.key_scan 0xB75 = Keypad.key_scan (16 * (0xB75 / 16)).
Proof.
  split; [lia|]. split; [reflexivity|].
  destruct (key_scan_edges 0xB75) as (_ & H & _); [lia | exact H].
Defined.

(** X11.  The decoder is ordered: of two conversion results that both
    decode to a key, the larger never decodes to the larger key (key 0
    has the highest window, key F the lowest). *)
Theorem key_scan_antitone (v1 v2 : Z) :
  0 <= v1 -> v1 <= v2 -> v2 < 4294967296 ->
  Keypad.key_scan v1 <> Keypad.chr "G" ->
  Keypad.key_scan v2 <> Keypad.chr "G" ->
  Keypad.key_scan v2 <= Keypad.key_scan v1.
Proof.
  intros H0 Hle Hhi G1 G2.
  assert (B1 : v1 < 0xB80).
  { destruct (Z.lt_ge_cases v1 0xB80) as [H|H]; [exact H|].
    destruct G1. apply key_scan_above; lia. }
  assert (B2 : v2 < 0xB80).
  { destruct (Z.lt_ge_cases v2 0xB80) as [H|H]; [exact H|].
    destruct G2. apply key_scan_above; lia. }
  rewrite (key_scan_low_bits v1), (key_scan_low_bits v2) in *.
  assert (Q1 : 0 <= v1 / 16 < 0 + Z.of_nat 184).
  { split; [apply Z.div_pos; lia | apply Z.div_lt_upper_bound; lia]. }
  assert (Q2 : 0 <= v2 / 16 < 0 + Z.of_nat 184).
  { split; [apply Z.div_pos; lia | apply Z.div_lt_upper_bound; lia]. }
  assert (Q : v1 / 16 <= v2 / 16) by (apply Z.div_le_mono; lia).
  revert G1 G2 Q. generalize Q1 Q2. generalize (v1 / 16) (v2 / 16).
  clear. intros q1 q2 Q1 Q2 G1 G2 Q.
  pose (check := fun q1 q2 =>
    implb ((q1 <=? q2)
           && negb (Keypad.key_scan (16 * q1) =? Keypad.chr "G")
           && negb (Keypad.key_scan (16 * q2) =? Keypad.chr "G"))
          (Keypad.key_scan (16 * q2) <=? Keypad.key_scan (16 * q1))).
  assert (H : check q1 q2 = true).
  { apply (forall_range2 check 0 184); [vm_compute; reflexivity | | ];
      assumption. }
  unfold check in H.
  apply Z.leb_le in Q. apply Z.eqb_neq in G1, G2.
  rewrite Q, G1, G2 in H. cbn [andb negb implb] in H.
  now apply Z.leb_le.
Qed.

Lemma key_scan_antitone_witness :
  Keypad.key_scan 0x5A3 = Keypad.chr "C"
  /\ Keypad.key_scan 0xB29 = Keypad.chr "1"
  /\ Keypad.key_scan 0xB29 <= Keypad.key_scan 0x5A3.
Proof.
  split; [reflexivity|]. split; [reflexivity|].
  apply (key_scan_antitone 0x5A3 0xB29); try lia;
    vm_compute; discriminate.
Defined.

(** *** The light-intensity scale *)

(** X12.  For a 12-bit conversion result the light intensity is the
    result times ten over 3030, rounded down; it lies between 0 and 13,
    and it stays within 0 to 10 exactly for results up to 3332. *)
Theorem lightIntensity_range (result : Z) :
  0 <= result <= 4095 ->
  0 <= Sensor.lightIntensity result <= 13
  /\ 3030 * Sensor.lightIntensity result <= result * 10
     < 3030 * (Sensor.lightIntensity result + 1)
  /\ (Sensor.lightIntensity result <= 10 <-> result <= 3332).
Proof.
  intros Hr. unfold Sensor.lightIntensity.
  rewrite Z.quot_div_nonneg by lia.
  pose proof (Z.div_mod (result * 10) 3030 ltac:(lia)) as Hd.
  pose proof (Z.mod_pos_bound (result * 10) 3030 ltac:(lia)) as Hm.
  repeat split; lia.
Qed.

Lemma lightIntensity_range_witness :
  0 <= 4095 <= 4095
  /\ Sensor.lightIntensity 4095 = 13
  /\ 0 <= Sensor.lightIntensity 4095 <= 13.
Proof.
  split; [lia|]. split; [reflexivity|].
  destruct (lightIntensity_range 4095) as [H _]; [lia | exact H].
Defined.

(** *** The remapping as a rewiring *)

(** X13.  The remapping only moves bits: bit [i] of the remapped byte is
    bit [i xor 3] of the byte given, so that bits 0 and 3, 1 and 2,
    4 and 7, 5 and 6 change places, and the remapping of a bitwise OR
    or AND of two bytes is the OR or AND of their remappings. *)
Theorem remap_moves_bits (b c i : Z) :
  0 <= b < 256 -> 0 <= c < 256 -> 0 <= i < 8 ->
  Z.testbit (LCD.remap b) i = Z.testbit b (Z.lxor i 3)
  /\ LCD.remap (Z.lor b c) = Z.lor (LCD.remap b) (LCD.remap c)
  /\ LCD.remap (Z.land b c) = Z.land (LCD.remap b) (LCD.remap c).
Proof.
  intros Hb Hc Hi.
  pose (bits := fun b i =>
    Bool.eqb (Z.testbit (LCD.remap b) i) (Z.testbit b (Z.lxor i 3))).
  pose (ops := fun b c =>
    ((LCD.remap (Z.lor b c) =? Z.lor (LCD.remap b) (LCD.remap c))
     && (LCD.remap (Z.land b c) =? Z.land (LCD.remap b) (LCD.remap c)))%bool).
  assert (H1 : bits b i = true).
  { apply (forall_range (bits b) 0 8); [|lia].
    apply (forall_range (fun b => forallb (bits b) (zrange 0 8)) 0 256);
      [vm_compute; reflexivity | lia]. }
  assert (H2 : ops b c = true).
  { apply (forall_range2 ops 0 256); [vm_compute; reflexivity | lia | lia]. }
  unfold bits in H1. unfold ops in H2.
  apply Bool.eqb_prop in H1. split_checks H2. repeat split; assumption.
Qed.

Lemma remap_moves_bits_witness :
  LCD.remap 0x30 = 0xC0
  /\ Z.testbit (LCD.remap 0x30) 7 = Z.testbit 0x30 (Z.lxor 7 3)
  /\ LCD.remap (Z.lor 0x30 0x01) = Z.lor (LCD.remap 0x30) (LCD.remap 0x01).
Proof.
  split; [reflexivity|].
  destruct (remap_moves_bits 0x30 0x01 7) as (H1 & H2 & _); try lia.
  split; [exact H1 | exact H2].
Defined.
